(** * Lager: the plugin orchestration engine

    A shallow embedding of the two engine implementations of the repository:

    - [LagerLib]  : [src/lib/lager.js], the prototype-based engine with its own
                    [fire] (a recursive promise chain over the plugin list);
    - [LagerPebo] : the class-based engine that extends the Pebo event emitter
                    and adds [call], [getConfig] and the config merge of
                    [registerPlugin].

    JavaScript objects live in explicit stores so that in-place mutation and
    aliasing are visible: plugin descriptors in a store of records, config
    objects in a store of string-keyed maps.

    Where the engines use an object as a table of functions and apply what a
    lookup finds ([hooks[eventName]] in [fire], [this.extensions[name]] in
    [call]), the lookup is modelled with the members the table inherits from
    its prototype.  The config objects are modelled by their own properties:
    a config key that names a member of [Object.prototype] or of
    [Array.prototype], and the [length] of the array a new engine starts
    with, are outside the model, and the statements about the config keep
    to properties the objects own. *)

From Equations Require Import Equations.
From Equations.Prop Require Import Logic.
From Stdlib Require Import Ascii.
From stdpp Require Import gmap strings list fin_maps pretty.

Set Default Proof Using "Type".

(** ** JavaScript values, completions and promises *)

Definition loc := nat.

(** A number [VNum n] is the integer [n]; JavaScript numbers being doubles,
    [n] is meant within the safe integers, below [2^53] in size.  A
    reference [VRef l] is to a plain object of the config store. *)
Inductive value :=
| VUndefined
| VNull
| VBool (b : bool)
| VNum (n : Z)
| VStr (s : string)
| VRef (l : loc).

#[global] Instance value_eq_dec : EqDecision value.
Proof. solve_decision. Defined.

(** What a [throw] or a rejection carries: [new Error(msg)] or the engine's
    own [TypeError] (property access on [null]/[undefined], and the like). *)
Inductive error :=
| Error (msg : string)
| TypeError.

#[global] Instance error_eq_dec : EqDecision error.
Proof. solve_decision. Defined.

(** A synchronous call either returns or throws. *)
Inductive completion (A : Type) :=
| Normal (a : A)
| Throw (e : error).
Arguments Normal {A} a.
Arguments Throw {A} e.

(** A settled promise. *)
Inductive promise (A : Type) :=
| Resolved (a : A)
| Rejected (e : error).
Arguments Resolved {A} a.
Arguments Rejected {A} e.

(** What a call hands back to its caller: a plain value or a promise. *)
Inductive jsreturn :=
| Plain (v : value)
| Future (p : promise value).

(** [!v] is [false] exactly on the truthy values. *)
Definition truthy (v : value) : bool :=
  match v with
  | VUndefined | VNull => false
  | VBool b => b
  | VNum n => negb (n =? 0)%Z
  | VStr s => negb (String.eqb s EmptyString)
  | VRef _ => true
  end.

(** ToString on a value used as a property key or in a concatenation: of a
    number within the safe integers (its decimal digits), and of an object
    that has the [toString] of [Object.prototype]. *)
Definition to_string (v : value) : string :=
  match v with
  | VUndefined => "undefined"
  | VNull => "null"
  | VBool true => "true"
  | VBool false => "false"
  | VNum n => pretty n
  | VStr s => s
  | VRef _ => "[object Object]"
  end.

(** ** Plugin descriptors *)

(** A hook handler is called with [this] bound to its plugin and the argument
    tuple spread, and [.spread] is called on what it returns.  [Normal p] is
    a handler that returns the Bluebird promise [p]; [Throw e] is a handler
    whose call throws [e], or whose return has no [spread] to call, [e]
    being the TypeError of that call. *)
Definition handler := loc -> list value -> completion (promise (list value)).

(** An extension returns a plain value or a promise, or throws. *)
Definition extension := list value -> completion jsreturn.

(** The closure [getBasePath] that [src/lib/lager.js] injects; it captures the
    plugin it was created for. *)
Inductive closure :=
| GetBasePath (plugin : loc).

Module Plugin.
(** The members of a descriptor the engines read or write.  An absent member
    is [None].  [hooks] and [extensions] keep the key order of the object. *)
Record t := mk {
  name : option string;
  hooks : option (list (string * handler));
  extensions : option (list (string * extension));
  config : option loc;
  lager : option loc;
  getPath : option closure
}.

(** The object literal [{}]. *)
Definition empty : t := mk None None None None None None.

Definition set_name (n : option string) (p : t) : t :=
  mk n (hooks p) (extensions p) (config p) (lager p) (getPath p).
Definition set_hooks (h : option (list (string * handler))) (p : t) : t :=
  mk (name p) h (extensions p) (config p) (lager p) (getPath p).
Definition set_extensions (x : option (list (string * extension))) (p : t) : t :=
  mk (name p) (hooks p) x (config p) (lager p) (getPath p).
Definition set_config (c : option loc) (p : t) : t :=
  mk (name p) (hooks p) (extensions p) c (lager p) (getPath p).
Definition set_lager (l : option loc) (p : t) : t :=
  mk (name p) (hooks p) (extensions p) (config p) l (getPath p).
Definition set_getPath (g : option closure) (p : t) : t :=
  mk (name p) (hooks p) (extensions p) (config p) (lager p) g.
End Plugin.

(** The store of descriptor objects.  A reference that was never written
    reads as the empty object. *)
Definition desc_at (descs : gmap loc Plugin.t) (p : loc) : Plugin.t :=
  default Plugin.empty (descs !! p).

(** [o[k]] on an object whose keys are listed in order. *)
Fixpoint assoc {A : Type} (k : string) (l : list (string * A)) : option A :=
  match l with
  | [] => None
  | (k', a) :: l' => if String.eqb k' k then Some a else assoc k l'
  end.

(** [!plugin.name]: an absent or empty name is falsy. *)
Definition name_truthy (n : option string) : bool :=
  match n with
  | None => false
  | Some s => negb (String.eqb s EmptyString)
  end.

(** [plugin.name === name] for a string [name]. *)
Definition name_is (name : string) (p : Plugin.t) : bool :=
  match Plugin.name p with
  | Some s => String.eqb s name
  | None => false
  end.

(** ** [src/lib/lager.js] *)

Module LagerLib.

(** The engine object and the descriptors it references. *)
Record state := mkState {
  self : loc;
  plugins : list loc;
  descs : gmap loc Plugin.t
}.

(** [new Lager()] *)
Definition constructor (this : loc) (descs : gmap loc Plugin.t) : state :=
  mkState this [] descs.

(** [registerPlugin(plugin)]: returns [this], or throws before any write. *)
Definition registerPlugin (plugin : loc) (st : state) : completion loc * state :=
  let d := desc_at (descs st) plugin in
  if negb (name_truthy (Plugin.name d)) then
    (Throw (Error "A lager plugin MUST have a name property"), st)
  else
    let d' := Plugin.set_getPath (Some (GetBasePath plugin)) d in
    (Normal (self st),
     mkState (self st) (plugins st ++ [plugin]) (<[plugin := d']> (descs st))).

(** [_.find(this.plugins, plugin => plugin.name === name)]; [None] is
    [undefined]. *)
Definition getPlugin (name : string) (st : state) : option loc :=
  List.find (fun p => name_is name (desc_at (descs st) p)) (plugins st).

(** The names of the members of [Object.prototype].  A [hooks] object, being
    a plain object, has a truthy member under each of them even when it
    does not own one. *)
Definition object_prototype_members : list string :=
  ["constructor"; "hasOwnProperty"; "isPrototypeOf"; "propertyIsEnumerable";
   "toLocaleString"; "toString"; "valueOf"; "__proto__";
   "__defineGetter__"; "__defineSetter__"; "__lookupGetter__"; "__lookupSetter__"].

(** What [fire] makes of an inherited member [m] when it evaluates
    [m.apply(plugin, args).spread(...)]: [__proto__] is an object without
    [apply], the methods return a string, a boolean, [undefined] or an
    object without [spread] or throw a TypeError themselves, so the
    expression throws a TypeError for every one of them. *)
Definition inherited_member : handler := fun _ _ => Throw TypeError.

(** [this.plugins[i].hooks && this.plugins[i].hooks[eventName]]: the
    plugin's own handler, or else the member [hooks] inherits under that
    name. *)
Definition hook_of (st : state) (p : loc) (eventName : string) : option handler :=
  match Plugin.hooks (desc_at (descs st) p) with
  | None => None
  | Some hs =>
      match assoc eventName hs with
      | Some h => Some h
      | None =>
          if bool_decide (eventName ∈ object_prototype_members)
          then Some inherited_member else None
      end
  end.

(** What the promise returned by [.spread(callback)] settles to when the
    callback's own result is [r]: a throw inside the callback becomes a
    rejection, a returned promise is adopted. *)
Definition adopt {A} (r : completion (promise A)) : completion (promise A) :=
  match r with
  | Normal p => Normal p
  | Throw e => Normal (Rejected e)
  end.

(** One invocation, of a handler or of an inherited member: the position
    of the plugin and the tuple it was applied to. *)
Definition invocation : Type := nat * list value.

(** The recursive function of [fire].  Next to the result it returns the
    handler invocations it performed, in order. *)
Equations? callPluginsSequencialy (st : state) (eventName : string)
    (i : nat) (args : list value)
    : list invocation * completion (promise (list value))
    by wf (length (plugins st) - i) lt :=
  callPluginsSequencialy st eventName i args with inspect (plugins st !! i) := {
    | exist _ None _ => ([], Normal (Resolved args));
    | exist _ (Some p) Hp with hook_of st p eventName := {
        | None => callPluginsSequencialy st eventName (i + 1) args;
        | Some h with h p args := {
            | Throw e => ([(i, args)], Throw e);
            | Normal (Rejected e) => ([(i, args)], Normal (Rejected e));
            | Normal (Resolved args') =>
                let r := callPluginsSequencialy st eventName (i + 1) args' in
                ((i, args) :: r.1, adopt r.2) } } }.
Proof.
  all: apply lookup_lt_Some in Hp; lia.
Qed.

(** [fire(eventName, ...args)] *)
Definition fire (st : state) (eventName : string) (args : list value)
    : list invocation * completion (promise (list value)) :=
  callPluginsSequencialy st eventName 0 args.

(** The same chain written by recursion on the plugins that are left,
    [rest] standing for [this.plugins] from position [i] on.  It is the
    form the proofs work with; [callPluginsSequencialy_rest] relates the
    two. *)
Fixpoint callRest (st : state) (eventName : string) (rest : list loc)
    (i : nat) (args : list value)
    : list invocation * completion (promise (list value)) :=
  match rest with
  | [] => ([], Normal (Resolved args))
  | p :: rest' =>
      match hook_of st p eventName with
      | None => callRest st eventName rest' (i + 1) args
      | Some h =>
          match h p args with
          | Throw e => ([(i, args)], Throw e)
          | Normal (Rejected e) => ([(i, args)], Normal (Rejected e))
          | Normal (Resolved args') =>
              let r := callRest st eventName rest' (i + 1) args' in
              ((i, args) :: r.1, adopt r.2)
          end
      end
  end.



End LagerLib.

(** ** The engine built on the Pebo event emitter *)

Module LagerPebo.

(** The engine object with the stores it reaches: [descs] for plugin
    descriptors and [objs] for config objects (string-keyed maps).
    [extensions] holds the keys the engine wrote into the array it uses as
    a map (what that array inherits is the parameter of [call]); [events]
    lists the listeners handed to Pebo's [when], in order. *)
Record state := mkState {
  self : loc;
  config : value;
  plugins : list loc;
  extensions : gmap string extension;
  events : list (string * handler);
  descs : gmap loc Plugin.t;
  objs : gmap loc (gmap string value)
}.

Definition set_config (v : value) (st : state) : state :=
  mkState (self st) v (plugins st) (extensions st) (events st) (descs st) (objs st).
Definition set_plugins (l : list loc) (st : state) : state :=
  mkState (self st) (config st) l (extensions st) (events st) (descs st) (objs st).
Definition set_extensions (x : gmap string extension) (st : state) : state :=
  mkState (self st) (config st) (plugins st) x (events st) (descs st) (objs st).
Definition set_events (e : list (string * handler)) (st : state) : state :=
  mkState (self st) (config st) (plugins st) (extensions st) e (descs st) (objs st).
Definition set_descs (d : gmap loc Plugin.t) (st : state) : state :=
  mkState (self st) (config st) (plugins st) (extensions st) (events st) d (objs st).
Definition set_objs (o : gmap loc (gmap string value)) (st : state) : state :=
  mkState (self st) (config st) (plugins st) (extensions st) (events st) (descs st) o.

(** Methods run in a state-and-exception monad: a throw keeps the writes
    made before it. *)
Definition M (A : Type) : Type := state -> completion A * state.

Definition ret {A} (a : A) : M A := fun st => (Normal a, st).
Definition throw {A} (e : error) : M A := fun st => (Throw e, st).
Definition bind {A B} (m : M A) (k : A -> M B) : M B :=
  fun st =>
    match m st with
    | (Normal a, st') => k a st'
    | (Throw e, st') => (Throw e, st')
    end.
Definition get : M state := fun st => (Normal st, st).
Definition modify (f : state -> state) : M unit := fun st => (Normal tt, f st).
Definition lift {A} (c : completion A) : M A := fun st => (c, st).

Notation "'do' x <- m ; k" := (bind m (fun x => k))
  (at level 10, x name, m at level 100, k at level 200).
Notation "'do_' m ; k" := (bind m (fun _ => k))
  (at level 10, m at level 100, k at level 200).

(** Update the descriptor object at [p] in place. *)
Definition update_desc (p : loc) (f : Plugin.t -> Plugin.t) : M unit :=
  modify (fun st => set_descs (<[p := f (desc_at (descs st) p)]> (descs st)) st).

(** The properties of the object at [l]; an unwritten reference reads as
    the empty object. *)
Definition obj_at (objs : gmap loc (gmap string value)) (l : loc) : gmap string value :=
  default ∅ (objs !! l).

(** Own properties of a string primitive: [length] and the characters at
    its indices. *)
Definition string_prop (s : string) (k : string) : value :=
  if String.eqb k "length" then VNum (Z.of_nat (String.length s))
  else
    match List.find (fun i => String.eqb (pretty i) k) (seq 0 (String.length s)) with
    | Some i =>
        match String.get i s with
        | Some c => VStr (String c EmptyString)
        | None => VUndefined
        end
    | None => VUndefined
    end.

(** [o[k]] as a read, of the properties [o] owns. *)
Definition get_prop (objs : gmap loc (gmap string value)) (o : value) (k : string)
    : completion value :=
  match o with
  | VUndefined | VNull => Throw TypeError
  | VRef l => Normal (default VUndefined (obj_at objs l !! k))
  | VStr s => Normal (string_prop s k)
  | VBool _ | VNum _ => Normal VUndefined
  end.

(** [o[k] = v] in strict mode: only an object takes the write. *)
Definition set_prop (o : value) (k : string) (v : value) : M unit :=
  match o with
  | VRef l => modify (fun st => set_objs (<[l := <[k := v]> (obj_at (objs st) l)]> (objs st)) st)
  | _ => throw TypeError
  end.

(** [s.split(sep)] for a one-character separator. *)
Fixpoint split (sep : Ascii.ascii) (s : string) : list string :=
  match s with
  | EmptyString => [EmptyString]
  | String c s' =>
      if Ascii.eqb c sep then EmptyString :: split sep s'
      else
        match split sep s' with
        | [] => [String c EmptyString]
        | w :: ws => String c w :: ws
        end
  end.

(** [a.shift()] used as a property key, and what is left of [a].  On an
    empty array the key is [undefined]. *)
Definition shift_key (a : list string) : string * list string :=
  match a with
  | [] => ("undefined", [])
  | k :: a' => (k, a')
  end.

(** The [while] loop of [getConfig]. *)
Fixpoint walk (objs : gmap loc (gmap string value)) (part : value)
    (configParts : list string) : completion value :=
  match configParts with
  | [] => Normal part
  | k :: configParts' =>
      if decide (part = VUndefined) then Normal VUndefined
      else
        match get_prop objs part k with
        | Throw e => Throw e
        | Normal part' => walk objs part' configParts'
        end
  end.

(** [getConfig(key)]; [None] is a call without a key. *)
Definition getConfig (key : option string) (st : state) : completion value :=
  match key with
  | None => Normal (config st)
  | Some key =>
      let '(k, configParts) := shift_key (split "."%char key) in
      match get_prop (objs st) (config st) k with
      | Throw e => Throw e
      | Normal part => walk (objs st) part configParts
      end
  end.

(** The own enumerable string-keyed properties [_.assign] copies from a
    source: those of an object, the indexed characters of a string,
    nothing for the other primitives. *)
Definition source_props (objs : gmap loc (gmap string value)) (source : value)
    : gmap string value :=
  match source with
  | VRef s => obj_at objs s
  | VStr s =>
      list_to_map (imap (fun i c => (pretty i, VStr (String c EmptyString)))
                        (String.list_ascii_of_string s))
  | _ => ∅
  end.

(** The reference a value is, if it is one. *)
Definition ref_of (v : value) : option loc :=
  match v with
  | VRef l => Some l
  | _ => None
  end.

(** The locations of config objects that are in use: those the store has
    an object at, and those a reference is held to, by the engine as its
    config, by a descriptor as its config, or by a property of a stored
    object.  (A reference nothing was written at reads as an empty
    object, so it counts.) *)
Definition in_use (st : state) : gset loc :=
  dom (objs st)
  ∪ match ref_of (config st) with Some l => {[l]} | None => ∅ end
  ∪ map_img (omap Plugin.config (descs st))
  ∪ ⋃ ((λ o : gmap string value, map_img (omap ref_of o) : gset loc)
         <$> (map_to_list (objs st)).*2).

(** [_.assign(target, source)]: [Object(target)] is the target itself when
    it is an object and a new empty object, at a location not in use, when
    it is absent; a falsy source is skipped; the properties of the source
    overwrite those of the target, which is returned. *)
Definition assign (target : option loc) (source : value) : M loc :=
  fun st =>
    let t := match target with
             | Some t => t
             | None => fresh (in_use st)
             end in
    let st1 := match target with
               | Some _ => st
               | None => set_objs (<[t := ∅]> (objs st)) st
               end in
    if truthy source then
      (Normal t,
       set_objs (<[t := source_props (objs st1) source ∪ obj_at (objs st1) t]> (objs st1)) st1)
    else (Normal t, st1).

(** [plugin.config] read as a value. *)
Definition config_value (c : option loc) : value :=
  match c with
  | Some l => VRef l
  | None => VUndefined
  end.

(** [this.plugins] searched with [plugin.name === name]. *)
Definition find_plugin (name : string) (st : state) : option loc :=
  List.find (fun p => name_is name (desc_at (descs st) p)) (plugins st).

(** [isPluginRegistered(name)] *)
Definition isPluginRegistered (name : string) (st : state) : bool :=
  match find_plugin name st with
  | Some _ => true
  | None => false
  end.

(** The double quote character of the error message. *)
Definition dquote : string := String (Ascii.ascii_of_nat 34) EmptyString.

(** [getPlugin(name)] *)
Definition getPlugin (name : string) (st : state) : completion loc :=
  match find_plugin name st with
  | Some plugin => Normal plugin
  | None =>
      Throw (Error ("The plugin " ++ dquote ++ name ++ dquote
                    ++ " is not registered in the Lager instance")%string)
  end.

(** [arguments.shift()]: the first argument, [undefined] when there is
    none, and the rest. *)
Definition shift (a : list value) : value * list value :=
  match a with
  | [] => (VUndefined, [])
  | v :: a' => (v, a')
  end.

Section WithArrayPrototype.

(** [this.extensions] is an array.  Under a key no extension is registered
    under, [this.extensions[name]] is what the array inherits from
    [Array.prototype] and [Object.prototype] (its own [length] stays 0, the
    keys of the extensions having a colon).  [array_member k] is that
    member when it is truthy, as the result of [member.apply(null, args)]:
    [push] throws a TypeError there, [constructor] returns a new array;
    [None] when the array has nothing truthy under [k].  The prototypes
    belong to the JavaScript engine the code runs on. *)
Variable array_member : string -> option extension.

(** [call(name, ...args)], given all its [arguments]. *)
Definition call (arguments : list value) (st : state) : completion jsreturn :=
  let '(name, args) := shift arguments in
  match extensions st !! to_string name with
  | Some ext => ext args
  | None =>
      match array_member (to_string name) with
      | Some member => member args
      | None => Normal (Future (Resolved (List.last args VUndefined)))
      end
  end.

End WithArrayPrototype.

Section WithLodash.

(** lodash's [_.camelCase] on strings. *)
Variable camelCase : string -> string.

(** [registerPlugin(plugin)] *)
Definition registerPlugin (plugin : loc) : M loc :=
  do this <- get;
  do_ update_desc plugin (Plugin.set_lager (Some (self this)));
  let plugiConfigKey :=
    camelCase (default EmptyString (Plugin.name (desc_at (descs this) plugin))) in
  do st <- get;
  do pluginConfig <- lift (getConfig (Some plugiConfigKey) st);
  do_ (if decide (pluginConfig = VUndefined) then ret tt
       else
         do c <- assign (Plugin.config (desc_at (descs st) plugin)) pluginConfig;
         update_desc plugin (Plugin.set_config (Some c)));
  do st <- get;
  do_ set_prop (config st) plugiConfigKey
        (config_value (Plugin.config (desc_at (descs st) plugin)));
  do_ modify (fun st => set_plugins (plugins st ++ [plugin]) st);
  let hooks := default [] (Plugin.hooks (desc_at (descs st) plugin)) in
  do_ update_desc plugin (Plugin.set_hooks (Some hooks));
  do_ modify (fun st => set_events (events st ++ hooks) st);
  let exts := default [] (Plugin.extensions (desc_at (descs st) plugin)) in
  do_ update_desc plugin (Plugin.set_extensions (Some exts));
  let name := default "undefined" (Plugin.name (desc_at (descs st) plugin)) in
  do_ modify (fun st =>
        set_extensions
          (foldl (fun x '(extensionName, fn) => <[(name ++ ":" ++ extensionName)%string := fn]> x)
                 (extensions st) exts) st);
  ret (self this).

End WithLodash.

(** [new Lager()]: [this.config = []] is a new object at [c] without
    properties of its own, the array being modelled by its string-keyed
    properties and not by its [length]. *)
Definition constructor (this c : loc) (descs : gmap loc Plugin.t)
    (objs : gmap loc (gmap string value)) : state :=
  mkState this (VRef c) [] ∅ [] descs (<[c := ∅]> objs).

End LagerPebo.

(** ** Example descriptors *)

Module Examples.

(** A hook that appends [suffix] to its first argument when that is a
    string, and resolves with the tuple. *)
Definition appendHook (suffix : string) : handler :=
  fun _ args =>
    match args with
    | VStr s :: rest => Normal (Resolved (VStr (s ++ suffix)%string :: rest))
    | _ => Normal (Resolved args)
    end.


(** A hook whose promise rejects. *)
Definition rejectHook (e : error) : handler :=
  fun _ _ => Normal (Rejected e).

(** [{name: n, hooks: {[event]: h}}] *)
Definition hooked (n : string) (event : string) (h : handler) : Plugin.t :=
  Plugin.mk (Some n) (Some [(event, h)]) None None None None.

(** [{name: n}] *)
Definition named (n : string) : Plugin.t :=
  Plugin.mk (Some n) None None None None None.

(** Three descriptor objects at 1, 2 and 3, the engine at 0. *)
Definition store3 (a b c : Plugin.t) : gmap loc Plugin.t :=
  <[1 := a]> (<[2 := b]> (<[3 := c]> ∅)).

(** Register the plugins at [ps], in that order, on a new engine. *)
Definition registerAll (ps : list loc) (descs : gmap loc Plugin.t) : LagerLib.state :=
  foldl (fun st p => (LagerLib.registerPlugin p st).2) (LagerLib.constructor 0 descs) ps.

(** Plugin A appends ["-A"], plugin B appends ["-B"]. *)
Definition storeAB (event : string) : gmap loc Plugin.t :=
  store3 (hooked "A" event (appendHook "-A")) (hooked "B" event (appendHook "-B"))
         (named "C").

(** Plugin A appends ["-A"], the hook of plugin B rejects with [e], plugin
    C appends ["-C"]. *)
Definition storeFail (event : string) (e : error) : gmap loc Plugin.t :=
  store3 (hooked "A" event (appendHook "-A")) (hooked "B" event (rejectHook e))
         (hooked "C" event (appendHook "-C")).


(** A then B, and B then A, registered on a new engine. *)
Definition engineAB (event : string) : LagerLib.state :=
  registerAll [1; 2] (storeAB event).

(** A, then the rejecting B, then C. *)
Definition engineFail (event : string) (e : error) : LagerLib.state :=
  registerAll [1; 2; 3] (storeFail event e).

(** Stand-in for lodash's [_.camelCase] on a name that is one lower-case
    word, which lodash returns as it is. *)
Definition camelCaseWord (s : string) : string := s.

(** The project config [{iam: {timeout: 60}}] (objects 10 and 11) and the
    config object [{timeout: 30}] of a plugin (object 12). *)
Definition projectObjs : gmap loc (gmap string value) :=
  <[10 := {["iam" := VRef 11]}]>
    (<[11 := {["timeout" := VNum 60]}]> (<[12 := {["timeout" := VNum 30]}]> ∅)).

(** [{name: "iam", config: {timeout: 30}}] *)
Definition iamPlugin : Plugin.t :=
  Plugin.mk (Some "iam") None None (Some 12) None None.

(** The engine once [this.config] holds the project config, with the
    descriptor of the iam plugin at 1. *)
Definition projectEngine : LagerPebo.state :=
  LagerPebo.mkState 0 (VRef 10) [] ∅ [] {[1 := iamPlugin]} projectObjs.

(** An engine whose config is [{a: null}]. *)
Definition nullConfigEngine : LagerPebo.state :=
  LagerPebo.mkState 0 (VRef 10) [] ∅ [] ∅ {[10 := {["a" := VNull]}]}.

(** An engine whose config is [{iam: {region: "us-east-1"}}]. *)
Definition regionEngine : LagerPebo.state :=
  LagerPebo.mkState 0 (VRef 10) [] ∅ [] ∅
    (<[10 := {["iam" := VRef 11]}]> {[11 := {["region" := VStr "us-east-1"]}]}).

(** An extension that doubles its number argument and returns the plain
    number. *)
Definition double : extension :=
  fun args =>
    match args with
    | VNum n :: _ => Normal (Plain (VNum (2 * n)))
    | _ => Throw TypeError
    end.

(** [{name: "P", extensions: {double: double}}] *)
Definition pluginP : Plugin.t :=
  Plugin.mk (Some "P") None (Some [("double", double)]) None None None.

(** A stand-in for the members an array inherits: the methods of
    [Array.prototype] listed here, each of which throws a TypeError when it
    is applied with [this = null]. *)
Definition arrayMethods (k : string) : option extension :=
  if bool_decide (k ∈ ["push"; "pop"; "shift"; "unshift"; "slice"; "splice";
                       "concat"; "join"; "reverse"; "sort"; "indexOf";
                       "lastIndexOf"; "forEach"; "map"; "filter"; "some";
                       "every"; "reduce"; "reduceRight"; "toString";
                       "toLocaleString"])
  then Some (fun _ => Throw TypeError) else None.

End Examples.

(** ** Project initialisation of the Pebo-based engine *)

Module LagerPeboInit.

(** The argument of [init]: the content of the project file, with its
    [config] and its list of plugin identifiers. *)
Record project_config := mkProject {
  config : value;
  plugins : option (list string)
}.

(** What a call of [init] leaves: its result, the engine, the warnings
    written to the log, in order, and the argument object as [init] left
    it. *)
Record outcome (R : Type) := mkOutcome {
  result : completion R;
  engine : LagerPebo.state;
  warnings : list string;
  argument : project_config
}.
Arguments mkOutcome {R} result engine warnings argument.
Arguments result {R} o.
Arguments engine {R} o.
Arguments warnings {R} o.
Arguments argument {R} o.

Section WithEnvironment.

(** lodash's [_.camelCase]. *)
Variable camelCase : string -> string.

(** [this.fire]: the [fire] of Pebo behind the wrapper of the constructor
    that logs the call, and the type of what it returns. *)
Variable R : Type.
Variable fire : string -> list value -> LagerPebo.state -> completion R * LagerPebo.state.

(** Node's module system: whether [require.resolve] finds a module, and
    the module object [require] returns for it. *)
Variable resolvable : string -> bool.
Variable require : string -> loc.

(** [path.join] and [process.cwd()]. *)
Variable path_join : list string -> string.
Variable cwd : string.

(** The three nested [try] blocks: the identifier itself, then the path
    in the project, then the path under the project's [node_modules];
    [None] is [requireArg = false]. *)
Definition locate (pluginIdentifier : string) : option string :=
  if resolvable pluginIdentifier then Some pluginIdentifier
  else if resolvable (path_join [cwd; pluginIdentifier])
       then Some (path_join [cwd; pluginIdentifier])
  else if resolvable (path_join [cwd; "node_modules"; pluginIdentifier])
       then Some (path_join [cwd; "node_modules"; pluginIdentifier])
  else None.

(** The message of [lager.log.warn]. *)
Definition not_found (pluginIdentifier : string) : string :=
  ("Lager could not find the plugin " ++ LagerPebo.dquote ++ pluginIdentifier
   ++ LagerPebo.dquote)%string.

(** The [_.forEach] over the identifiers: a module that is found (and whose
    path is a truthy string) is registered, one that is not found is
    reported; a throw of [registerPlugin] ends the loop. *)
Fixpoint forEach_plugin (identifiers : list string) (st : LagerPebo.state)
    (log : list string) : completion unit * LagerPebo.state * list string :=
  match identifiers with
  | [] => (Normal tt, st, log)
  | pluginIdentifier :: identifiers' =>
      match locate pluginIdentifier with
      | None => forEach_plugin identifiers' st (log ++ [not_found pluginIdentifier])
      | Some requireArg =>
          if String.eqb requireArg EmptyString then forEach_plugin identifiers' st log
          else
            match LagerPebo.registerPlugin camelCase (require requireArg) st with
            | (Normal _, st') => forEach_plugin identifiers' st' log
            | (Throw e, st') => (Throw e, st', log)
            end
      end
  end.

(** [init(config)] *)
Definition init (config : project_config) (st : LagerPebo.state) : outcome R :=
  let st := LagerPebo.set_config (LagerPeboInit.config config) st in
  let identifiers := default [] (plugins config) in
  let config' := mkProject (LagerPeboInit.config config) (Some identifiers) in
  match forEach_plugin identifiers st [] with
  | (Normal _, st', log) =>
      let '(r, st'') := fire "afterInit" [] st' in
      mkOutcome r st'' log config'
  | (Throw e, st', log) => mkOutcome (Throw e) st' log config'
  end.

End WithEnvironment.

End LagerPeboInit.

(** ** The print buffer of the command line *)

Module Icli.

(** The function [icli.print] holds: the default [print], or the closure
    [catchPrintStart] installs, which keeps its [execOriginal]. *)
Inductive printer :=
| Print
| Catching (execOriginal : value).

(** The member [icli.print], the module variable [catched], and the calls
    of [console.log] so far, each with its arguments. *)
Record state := mkState {
  print : printer;
  catched : string;
  console : list (list value)
}.

(** The module as loaded: [icli.print = print] and [catched = ''].  *)
Definition loaded : state := mkState Print EmptyString [].

(** The default [print]: [console.log.apply(null, arguments)]. *)
Definition default_print (arguments : list value) (st : state) : state :=
  mkState (print st) (catched st) (console st ++ [arguments]).

(** A call [icli.print(...arguments)]: the function the member holds runs.
    The catching closure appends its first parameter [v] to [catched]. *)
Definition call_print (arguments : list value) (st : state) : state :=
  match print st with
  | Print => default_print arguments st
  | Catching execOriginal =>
      let st1 := if truthy execOriginal then default_print arguments st else st in
      mkState (print st1) (catched st1 ++ to_string (hd VUndefined arguments))%string
              (console st1)
  end.

(** [icli.catchPrintStart(execOriginal)] *)
Definition catchPrintStart (execOriginal : value) (st : state) : state :=
  mkState (Catching execOriginal) EmptyString (console st).

(** [icli.catchPrintStop()]: the returned string and the state. *)
Definition catchPrintStop (st : state) : string * state :=
  (catched st, mkState Print (catched st) (console st)).

(** The values the closure's [catched += v] appends as [to_string] has
    them: [undefined], [null], the booleans, the strings, and the numbers
    JavaScript prints with their decimal digits, which the integers below
    [2^53] in size are.  (An object is converted by its own [toString] or
    [valueOf], which may be anything.) *)
Definition printable (v : value) : Prop :=
  match v with
  | VNum n => (- 2 ^ 53 < n < 2 ^ 53)%Z
  | VRef _ => False
  | _ => True
  end.

(** A run of [icli.print] calls. *)
Definition prints (calls : list (list value)) (st : state) : state :=
  foldl (fun st arguments => call_print arguments st) st calls.

End Icli.

(** ** Paths through the config objects *)

Module ConfigPath.

(** The value found from [o] along the properties [ks], each step made
    through an object that has the property; [None] when a step leaves the
    objects.  The reference for what [getConfig] answers on such paths. *)
Fixpoint lookup_path (objs : gmap loc (gmap string value)) (o : value)
    (ks : list string) : option value :=
  match ks with
  | [] => Some o
  | k :: ks' =>
      match o with
      | VRef l =>
          match LagerPebo.obj_at objs l !! k with
          | Some v => lookup_path objs v ks'
          | None => None
          end
      | _ => None
      end
  end.

(** A segment of a dotted key: a string without a dot. *)
Definition segment (k : string) : Prop := LagerPebo.split "." k = [k].

End ConfigPath.

(** ** Further example descriptors *)

Module MoreExamples.

(** A hook that throws before it returns a promise. *)
Definition throwHook (e : error) : handler :=
  fun _ _ => Throw e.

(** A plugin without hooks, then one whose hook throws [e], then plugin C
    that appends ["-C"]. *)
Definition storeThrowFirst (event : string) (e : error) : gmap loc Plugin.t :=
  Examples.store3 (Examples.named "N") (Examples.hooked "T" event (throwHook e))
                  (Examples.hooked "C" event (Examples.appendHook "-C")).

(** Plugin A appends ["-A"], the hook of the second plugin throws [e],
    plugin C appends ["-C"]. *)
Definition storeThrowLater (event : string) (e : error) : gmap loc Plugin.t :=
  Examples.store3 (Examples.hooked "A" event (Examples.appendHook "-A"))
                  (Examples.hooked "T" event (throwHook e))
                  (Examples.hooked "C" event (Examples.appendHook "-C")).

(** An engine whose config was set to [undefined], with the descriptor of
    the iam plugin at 1. *)
Definition unconfiguredEngine : LagerPebo.state :=
  LagerPebo.mkState 0 VUndefined [] ∅ [] {[1 := Examples.iamPlugin]} Examples.projectObjs.

(** [{name: "math", extensions: {double: double}}] *)
Definition pluginMath : Plugin.t :=
  Plugin.mk (Some "math") None (Some [("double", Examples.double)]) None None None.

(** A new engine, with the descriptor of the math plugin at 1. *)
Definition mathEngine : LagerPebo.state :=
  LagerPebo.constructor 0 10 {[1 := pluginMath]} ∅.

(** The engine with the project config [{iam: {timeout: 60}}] and, at 1,
    the descriptor [{name: "iam"}], which has no config of its own. *)
Definition bareIamEngine : LagerPebo.state :=
  LagerPebo.mkState 0 (VRef 10) [] ∅ [] {[1 := Examples.named "iam"]} Examples.projectObjs.

(** The engine with the project config and, at 1, the descriptor
    [{name: "rds", config: {timeout: 30}}], for which the project has no
    section. *)
Definition rdsEngine : LagerPebo.state :=
  LagerPebo.mkState 0 (VRef 10) [] ∅ []
    {[1 := Plugin.mk (Some "rds") None None (Some 12) None None]} Examples.projectObjs.

(** Stand-in for lodash's [_.camelCase] that only leaves the dots out
    (lodash leaves every separator out); on a name that is one lower-case
    word both return the name. *)
Fixpoint dropDots (s : string) : string :=
  match s with
  | EmptyString => EmptyString
  | String ch s' => if Ascii.eqb ch "." then dropDots s' else String ch (dropDots s')
  end.

(** A Pebo [fire] without listeners: it resolves with the tuple. *)
Definition idleFire (eventName : string) (args : list value) (st : LagerPebo.state)
    : completion (promise (list value)) * LagerPebo.state :=
  (Normal (Resolved args), st).

(** A module system that knows the module ["lager-iam"] only, whose module
    object is the descriptor at 1. *)
Definition onlyIam (path : string) : bool := String.eqb path "lager-iam".
Definition moduleAt1 (path : string) : loc := 1.

(** A module system that finds nothing. *)
Definition noModule (path : string) : bool := false.

(** The project file [{config: {iam: {timeout: 60}}, plugins: ["lager-iam",
    "lager-s3"]}], its config being the object 10, and the same file
    without [config]. *)
Definition projectFile : LagerPeboInit.project_config :=
  LagerPeboInit.mkProject (VRef 10) (Some ["lager-iam"; "lager-s3"]).
Definition projectFileWithoutConfig : LagerPeboInit.project_config :=
  LagerPeboInit.mkProject VUndefined (Some ["lager-s3"; "lager-iam"]).

(** A new engine that can reach the objects of the project config and the
    descriptor of the iam plugin. *)
Definition newProjectEngine : LagerPebo.state :=
  LagerPebo.constructor 0 20 {[1 := Examples.iamPlugin]} Examples.projectObjs.

End MoreExamples.

(** * Properties of [src/lib/lager.js] *)

Section LagerLibFacts.
Import LagerLib.

(** The recursion on the index runs over the plugins from that index on. *)
Lemma callPluginsSequencialy_rest st eventName i args :
  callPluginsSequencialy st eventName i args
  = callRest st eventName (drop i (plugins st)) i args.
Proof.
  funelim (callPluginsSequencialy st eventName i args).
  1: { rewrite drop_ge; [reflexivity |]. by apply lookup_ge_None. }
  all: rewrite (drop_S _ _ _ Hp); cbn; rewrite ?Heq0, ?Heq; cbn zeta.
  all: replace (S i) with (i + 1) by lia; rewrite <- ?H; reflexivity.
Qed.

Lemma fire_rest st eventName args :
  fire st eventName args = callRest st eventName (plugins st) 0 args.
Proof. unfold fire. by rewrite callPluginsSequencialy_rest, drop_0. Qed.

(** Invocations carry the position of their plugin: never before the
    position the chain started from. *)
Lemma callRest_position st eventName rest i args j b :
  (j, b) ∈ (callRest st eventName rest i args).1 → i ≤ j.
Proof.
  revert i args. induction rest as [| p rest IH]; intros i args; cbn.
  { by intros ?%elem_of_nil. }
  destruct (hook_of st p eventName) as [h |].
  - destruct (h p args) as [[args' | e] | e]; cbn.
    + intros [[= -> ->] | Hin%IH]%elem_of_cons; lia.
    + intros [= -> ->]%list_elem_of_singleton. lia.
    + intros [= -> ->]%list_elem_of_singleton. lia.
  - intros Hin%IH. lia.
Qed.

(** With no implementing plugin left, the chain resolves with its tuple
    and invokes nothing. *)
Lemma callRest_unhandled st eventName rest i args :
  (∀ p, p ∈ rest → hook_of st p eventName = None) →
  callRest st eventName rest i args = ([], Normal (Resolved args)).
Proof.
  revert i. induction rest as [| p rest IH]; intros i Hnone; cbn; [done |].
  rewrite (Hnone p) by set_solver. apply IH. intros q Hq. apply Hnone. set_solver.
Qed.


(** Once an invoked handler rejects, the chain rejects with its error and
    that invocation is the last one. *)
Lemma callRest_fail_fast st eventName rest k args i a p h e :
  (i, a) ∈ (callRest st eventName rest k args).1 →
  rest !! (i - k) = Some p →
  hook_of st p eventName = Some h →
  h p a = Normal (Rejected e) →
  (callRest st eventName rest k args).2 = Normal (Rejected e)
  ∧ ∀ j b, (j, b) ∈ (callRest st eventName rest k args).1 → j ≤ i.
Proof.
  revert k args. induction rest as [| p0 rest IH]; intros k args; cbn.
  { by intros ?%elem_of_nil. }
  destruct (hook_of st p0 eventName) as [h0 |] eqn:Hh0.
  - destruct (h0 p0 args) as [[args' | e0] | e0] eqn:Hrun; cbn.
    + intros [[= -> ->] | Hin]%elem_of_cons Hp Hh Hrej.
      * rewrite Nat.sub_diag in Hp. injection Hp as <-. congruence.
      * pose proof (callRest_position _ _ _ _ _ _ _ Hin) as Hle.
        replace (i - k) with (S (i - (k + 1))) in Hp by lia. cbn in Hp.
        destruct (IH (k + 1) args' Hin Hp Hh Hrej) as [-> Hlast]. split; [done |].
        intros j b [[= -> ->] | Hjb]%elem_of_cons; [lia | by eapply Hlast].
    + intros [= -> ->]%list_elem_of_singleton Hp Hh Hrej.
      rewrite Nat.sub_diag in Hp. injection Hp as <-.
      assert (h = h0) as -> by congruence.
      split; [congruence |].
      by intros j b [= -> ->]%list_elem_of_singleton.
    + intros [= -> ->]%list_elem_of_singleton Hp Hh Hrej.
      rewrite Nat.sub_diag in Hp. injection Hp as <-. congruence.
  - intros Hin Hp Hh Hrej.
    pose proof (callRest_position _ _ _ _ _ _ _ Hin) as Hle.
    replace (i - k) with (S (i - (k + 1))) in Hp by lia. cbn in Hp.
    by apply IH.
Qed.


(** C2. If the handler of the plugin at position [i] is invoked during
    [fire] and its promise rejects with [e], then [fire] rejects with
    exactly [e] and no handler at a position after [i] is invoked. *)
Theorem fire_fail_fast st eventName args i a p h e :
  (i, a) ∈ (fire st eventName args).1 →
  plugins st !! i = Some p →
  hook_of st p eventName = Some h →
  h p a = Normal (Rejected e) →
  (fire st eventName args).2 = Normal (Rejected e)
  ∧ ∀ j b, (j, b) ∈ (fire st eventName args).1 → j ≤ i.
Proof.
  rewrite fire_rest. intros Hin Hp Hh Hrej.
  eapply callRest_fail_fast; [done | by rewrite Nat.sub_0_r | done..].
Qed.

(** C3. [fire] takes what a hooks object inherits for a handler.  With
    the plugins A and B registered, whose hooks objects hold a handler for
    ["build"] and for nothing else, no plugin implements a hook for
    ["toString"]; yet [fire("toString", "x", 7)] finds
    [Object.prototype.toString] under the hooks of A, applies it and throws
    a TypeError, where the claim has the call resolve with [("x", 7)]. *)
Theorem fire_inherited_member_throws :
  (∀ p hs, p ∈ plugins (Examples.engineAB "build") →
           Plugin.hooks (desc_at (descs (Examples.engineAB "build")) p) = Some hs →
           assoc "toString" hs = None)
  ∧ fire (Examples.engineAB "build") "toString" [VStr "x"; VNum 7]
    = ([(0, [VStr "x"; VNum 7])], Throw TypeError).
Proof.
  split; [| reflexivity].
  intros p hs Hp. change (p ∈ [1; 2]) in Hp.
  apply elem_of_cons in Hp as [-> | Hp];
    [| apply elem_of_cons in Hp as [-> | Hp]; [| by apply elem_of_nil in Hp]].
  all: by intros [= <-].
Qed.

(** On a new engine every event passes its tuple through. *)
Lemma fire_empty_registry this descs eventName T :
  fire (constructor this descs) eventName T = ([], Normal (Resolved T)).
Proof. rewrite fire_rest. apply callRest_unhandled. by intros p ?%elem_of_nil. Qed.

End LagerLibFacts.

Section LagerLibInstances.
Import LagerLib Examples.


Lemma fire_fail_fast_witness :
  (1, [VStr "x-A"]) ∈ (fire (engineFail "deploy" (Error "boom")) "deploy" [VStr "x"]).1
  ∧ plugins (engineFail "deploy" (Error "boom")) !! 1 = Some 2
  ∧ hook_of (engineFail "deploy" (Error "boom")) 2 "deploy"
    = Some (rejectHook (Error "boom"))
  ∧ rejectHook (Error "boom") 2 [VStr "x-A"] = Normal (Rejected (Error "boom"))
  ∧ (fire (engineFail "deploy" (Error "boom")) "deploy" [VStr "x"]).2
    = Normal (Rejected (Error "boom"))
  ∧ ∀ j b, (j, b) ∈ (fire (engineFail "deploy" (Error "boom")) "deploy" [VStr "x"]).1 →
           j ≤ 1.
Proof.
  assert (Hin : (1, [VStr "x-A"])
                ∈ (fire (engineFail "deploy" (Error "boom")) "deploy" [VStr "x"]).1).
  { apply list_elem_of_further, list_elem_of_here. }
  split; [exact Hin |]. split; [reflexivity |]. split; [reflexivity |].
  split; [reflexivity |].
  exact (fire_fail_fast (engineFail "deploy" (Error "boom")) "deploy" [VStr "x"]
           1 [VStr "x-A"] 2 (rejectHook (Error "boom")) (Error "boom")
           Hin eq_refl eq_refl eq_refl).
Defined.

End LagerLibInstances.

(** * Properties of the Pebo-based engine *)

Section LagerPeboFacts.
Import LagerPebo.

Lemma desc_at_insert (descs : gmap loc Plugin.t) p d :
  desc_at (<[p := d]> descs) p = d.
Proof. unfold desc_at. by rewrite lookup_insert_eq. Qed.

Lemma obj_at_insert (objs : gmap loc (gmap string value)) l o :
  obj_at (<[l := o]> objs) l = o.
Proof. unfold obj_at. by rewrite lookup_insert_eq. Qed.

Lemma obj_at_insert_ne (objs : gmap loc (gmap string value)) l l' o :
  l ≠ l' → obj_at (<[l := o]> objs) l' = obj_at objs l'.
Proof. intros Hne. unfold obj_at. by rewrite lookup_insert_ne. Qed.

(** Once a segment is missing the walk answers [undefined]. *)
Lemma walk_undefined objs configParts :
  walk objs VUndefined configParts = Normal VUndefined.
Proof. by destruct configParts. Qed.

(** [split] never returns the empty array. *)
Lemma split_cons sep s : ∃ k configParts, split sep s = k :: configParts.
Proof.
  induction s as [| ch s [k [configParts IH]]]; cbn; [by eauto |].
  destruct (Ascii.eqb ch sep); [by eauto |]. rewrite IH. by eauto.
Qed.

(** The monad's equations. *)
Lemma bind_get {B} (k : state → M B) st : bind get k st = k st st.
Proof. reflexivity. Qed.
Lemma bind_modify {B} f (k : unit → M B) st : bind (modify f) k st = k tt (f st).
Proof. reflexivity. Qed.
Lemma bind_update_desc {B} p f (k : unit → M B) st :
  bind (update_desc p f) k st
  = k tt (set_descs (<[p := f (desc_at (descs st) p)]> (descs st)) st).
Proof. reflexivity. Qed.
Lemma bind_ret {A B} (a : A) (k : A → M B) st : bind (ret a) k st = k a st.
Proof. reflexivity. Qed.
Lemma bind_lift_normal {A B} (a : A) (k : A → M B) st :
  bind (lift (Normal a)) k st = k a st.
Proof. reflexivity. Qed.
Lemma bind_bind {A B C} (m : M A) (k : A → M B) (k' : B → M C) st :
  bind (bind m k) k' st = bind m (fun a => bind (k a) k') st.
Proof. unfold bind. by destruct (m st) as [[a | e] st']. Qed.

(** ** [getConfig] *)

(** Without a key [getConfig] returns the config itself. *)
Lemma getConfig_no_key st : getConfig None st = Normal (config st).
Proof. reflexivity. Qed.

(** A key without a dot reads one property of the config object. *)
Lemma getConfig_top_level st c key :
  split "." key = [key] → config st = VRef c →
  getConfig (Some key) st = Normal (default VUndefined (obj_at (objs st) c !! key)).
Proof. intros Hsplit Hc. unfold getConfig. by rewrite Hsplit, Hc. Qed.

(** On an empty config object every key reads [undefined]. *)
Lemma getConfig_empty st c key :
  config st = VRef c → obj_at (objs st) c = ∅ →
  getConfig (Some key) st = Normal VUndefined.
Proof.
  intros Hc Hempty. unfold getConfig.
  destruct (split_cons "." key) as [k [configParts ->]]. cbn.
  rewrite Hc. cbn. rewrite Hempty, lookup_empty. cbn. apply walk_undefined.
Qed.

(** The lookups of the spec's example [{iam: {region: "us-east-1"}}]. *)
Lemma getConfig_region_examples :
  getConfig (Some "iam.region") Examples.regionEngine = Normal (VStr "us-east-1")
  ∧ getConfig (Some "iam.missing.deep") Examples.regionEngine = Normal VUndefined
  ∧ getConfig None Examples.regionEngine = Normal (VRef 10).
Proof. done. Qed.

(** A string in the middle of a path is indexed like any other value: its
    [length] is found. *)
Lemma getConfig_string_length :
  getConfig (Some "iam.region.length") Examples.regionEngine = Normal (VNum 9).
Proof. done. Qed.

(** C5. [getConfig] guards the walk against [undefined] only: with the
    config [{a: null}], [getConfig("a.b")] reads a property of [null] and
    throws a TypeError, where the claim has it return [undefined]. *)
Theorem getConfig_null_segment_throws :
  getConfig (Some "a.b") Examples.nullConfigEngine = Throw TypeError.
Proof. done. Qed.

(** ** [getPlugin] *)

(** [getPlugin] returns the first registered descriptor with the name. *)
Lemma getPlugin_first st name before p after :
  plugins st = before ++ p :: after →
  (∀ q, q ∈ before → name_is name (desc_at (descs st) q) = false) →
  name_is name (desc_at (descs st) p) = true →
  getPlugin name st = Normal p.
Proof.
  intros Hps Hbefore Hp. unfold getPlugin, find_plugin. rewrite Hps. clear Hps.
  induction before as [| q before IH]; cbn.
  - by rewrite Hp.
  - rewrite (Hbefore q) by set_solver. apply IH. intros r Hr. apply Hbefore. set_solver.
Qed.

(** [getPlugin] throws when no registered descriptor has the name. *)
Lemma getPlugin_not_found st name :
  (∀ q, q ∈ plugins st → name_is name (desc_at (descs st) q) = false) →
  getPlugin name st
  = Throw (Error ("The plugin " ++ dquote ++ name ++ dquote
                  ++ " is not registered in the Lager instance")%string).
Proof.
  intros Hnone. unfold getPlugin, find_plugin.
  induction (plugins st) as [| q ps IH]; cbn; [done |].
  rewrite (Hnone q) by set_solver. apply IH. intros r Hr. apply Hnone. set_solver.
Qed.

End LagerPeboFacts.

Section CallFacts.
Import LagerPebo.
Variable array_member : string → option extension.

Local Abbreviation call := (LagerPebo.call array_member).

(** ** [call] *)

(** A registered extension is applied to the arguments after the key, and
    what it returns is returned as it is. *)
Lemma call_registered st key (ext : extension) args :
  extensions st !! key = Some ext → call (VStr key :: args) st = ext args.
Proof.
  intros Hext. unfold LagerPebo.call, extension in *. cbn [shift to_string].
  by rewrite Hext.
Qed.

(** A key that no extension is registered under and that names a member
    the array inherits has that member applied. *)
Lemma call_inherited st key (member : extension) args :
  extensions st !! key = None → array_member key = Some member →
  call (VStr key :: args) st = member args.
Proof.
  intros Hext Hmember. unfold LagerPebo.call, extension in *. cbn [shift to_string].
  by rewrite Hext, Hmember.
Qed.

(** A key under which the array has nothing resolves with the last
    argument. *)
Lemma call_unregistered st key args :
  extensions st !! key = None → array_member key = None →
  call (VStr key :: args) st = Normal (Future (Resolved (List.last args VUndefined))).
Proof.
  intros Hext Hmember. unfold LagerPebo.call, extension in *. cbn [shift to_string].
  by rewrite Hext, Hmember.
Qed.

(** C9. [call] looks the key up in an array and takes what the array
    inherits for an extension: on an engine without extension under
    ["push"], [call("push")] applies [Array.prototype.push] with
    [this = null] and throws a TypeError, where the claim has it resolve
    with [undefined]. *)
Theorem call_applies_inherited_member st :
  extensions st !! "push" = None →
  array_member "push" = Some (λ _, Throw TypeError) →
  call [VStr "push"] st = Throw TypeError.
Proof. intros Hext Hmember. by rewrite (call_inherited _ _ _ _ Hext Hmember). Qed.

End CallFacts.

Section RegisterPluginFacts.
Import LagerPebo.
Variable camelCase : string → string.
Variable array_member : string → option extension.

Local Abbreviation call := (LagerPebo.call array_member).

Ltac proj :=
  unfold set_descs, set_objs, set_plugins, set_events, set_extensions, set_config;
  cbn [self config plugins extensions events descs objs].

(** Registration when the project config has an object [s] under the
    plugin's key and the plugin has its own config object [d]: the state
    it leaves. *)
Lemma registerPlugin_project_config st plugin c s d :
  let dd := desc_at (descs st) plugin in
  let key := camelCase (default EmptyString (Plugin.name dd)) in
  let merged := <[d := obj_at (objs st) s ∪ obj_at (objs st) d]> (objs st) in
  split "." key = [key] →
  config st = VRef c →
  obj_at (objs st) c !! key = Some (VRef s) →
  Plugin.config dd = Some d →
  registerPlugin camelCase plugin st
  = (Normal (self st),
     mkState (self st) (VRef c) (plugins st ++ [plugin])
       (foldl (λ x '(extensionName, fn),
                 <[(default "undefined" (Plugin.name dd) ++ ":" ++ extensionName)%string
                   := fn]> x)
              (extensions st) (default [] (Plugin.extensions dd)))
       (events st ++ default [] (Plugin.hooks dd))
       (<[plugin := Plugin.mk (Plugin.name dd) (Some (default [] (Plugin.hooks dd)))
                      (Some (default [] (Plugin.extensions dd))) (Some d)
                      (Some (self st)) (Plugin.getPath dd)]> (descs st))
       (<[c := <[key := VRef d]> (obj_at merged c)]> merged)).
Proof.
  intros dd key merged Hsplit Hc Hs Hd. destruct st as [this cfg ps xs evs ds os].
  cbn [config] in Hc. subst cfg. cbn [descs objs self plugins extensions events] in *.
  unfold registerPlugin. rewrite bind_get, bind_update_desc, bind_get. proj.
  fold dd key.
  assert (Hget : getConfig (Some key)
            (mkState this (VRef c) ps xs evs
               (<[plugin:=Plugin.set_lager (Some this) dd]> ds) os)
            = Normal (VRef s)).
  { unfold getConfig. rewrite Hsplit. cbn. by rewrite Hs. }
  rewrite Hget, bind_lift_normal.
  destruct (decide (VRef s = VUndefined)) as [? | _]; [done |].
  rewrite bind_bind. rewrite desc_at_insert.
  cbn [Plugin.config Plugin.set_lager]. fold dd in Hd. rewrite Hd.
  unfold bind at 1. unfold assign at 1. cbn [truthy]. proj.
  rewrite bind_update_desc, bind_get. proj. rewrite !desc_at_insert.
  cbn [Plugin.config Plugin.set_config config_value].
  unfold bind at 1. unfold set_prop at 1. unfold modify at 1. proj.
  rewrite bind_modify. proj.
  rewrite bind_update_desc. proj. rewrite !desc_at_insert, !insert_insert_eq.
  rewrite bind_modify. proj.
  rewrite bind_update_desc. proj. rewrite !desc_at_insert, !insert_insert_eq.
  rewrite bind_modify. proj. reflexivity.
Qed.

(** Registration on an engine whose config object is empty, as it is on
    a new engine: nothing is merged, and the plugin's own config is what
    the engine stores under the key. *)
Lemma registerPlugin_empty_config st plugin c :
  let dd := desc_at (descs st) plugin in
  let key := camelCase (default EmptyString (Plugin.name dd)) in
  config st = VRef c →
  obj_at (objs st) c = ∅ →
  registerPlugin camelCase plugin st
  = (Normal (self st),
     mkState (self st) (VRef c) (plugins st ++ [plugin])
       (foldl (λ x '(extensionName, fn),
                 <[(default "undefined" (Plugin.name dd) ++ ":" ++ extensionName)%string
                   := fn]> x)
              (extensions st) (default [] (Plugin.extensions dd)))
       (events st ++ default [] (Plugin.hooks dd))
       (<[plugin := Plugin.mk (Plugin.name dd) (Some (default [] (Plugin.hooks dd)))
                      (Some (default [] (Plugin.extensions dd))) (Plugin.config dd)
                      (Some (self st)) (Plugin.getPath dd)]> (descs st))
       (<[c := <[key := config_value (Plugin.config dd)]> (obj_at (objs st) c)]>
          (objs st))).
Proof.
  intros dd key Hc Hempty. destruct st as [this cfg ps xs evs ds os].
  cbn [config] in Hc. subst cfg. cbn [descs objs self plugins extensions events] in *.
  unfold registerPlugin. rewrite bind_get, bind_update_desc, bind_get. proj.
  fold dd key.
  rewrite (getConfig_empty _ c) by done. rewrite bind_lift_normal.
  destruct (decide (VUndefined = VUndefined)) as [_ | ?]; [| done].
  rewrite bind_ret, bind_get. proj. rewrite !desc_at_insert.
  cbn [Plugin.config Plugin.set_lager].
  unfold bind at 1. unfold set_prop at 1. unfold modify at 1. proj.
  rewrite bind_modify. proj.
  rewrite bind_update_desc. proj. rewrite !desc_at_insert, !insert_insert_eq.
  rewrite bind_modify. proj.
  rewrite bind_update_desc. proj. rewrite !desc_at_insert, !insert_insert_eq.
  rewrite bind_modify. proj. reflexivity.
Qed.

(** C6. When the project config holds an object under the plugin's
    camel-cased name, [registerPlugin] merges it over the plugin's own
    config: every property of the project's object wins, every other
    property keeps the plugin's default (the merge is of the top-level
    properties only), and [getConfig] of the key returns the merged
    object. *)
Theorem registerPlugin_merges_project_config st plugin c s d :
  let key := camelCase (default EmptyString (Plugin.name (desc_at (descs st) plugin))) in
  let st' := (registerPlugin camelCase plugin st).2 in
  split "." key = [key] →
  config st = VRef c →
  obj_at (objs st) c !! key = Some (VRef s) →
  Plugin.config (desc_at (descs st) plugin) = Some d →
  d ≠ c →
  (registerPlugin camelCase plugin st).1 = Normal (self st)
  ∧ obj_at (objs st') d = obj_at (objs st) s ∪ obj_at (objs st) d
  ∧ (∀ k v, obj_at (objs st) s !! k = Some v → obj_at (objs st') d !! k = Some v)
  ∧ (∀ k, obj_at (objs st) s !! k = None →
          obj_at (objs st') d !! k = obj_at (objs st) d !! k)
  ∧ getConfig (Some key) st' = Normal (VRef d).
Proof.
  intros key st' Hsplit Hc Hs Hd Hdc. subst st'.
  rewrite (registerPlugin_project_config st plugin c s d Hsplit Hc Hs Hd).
  cbn [fst snd objs].
  assert (Hmerged : obj_at (<[c := <[key := VRef d]>
                               (obj_at (<[d := obj_at (objs st) s ∪ obj_at (objs st) d]>
                                          (objs st)) c)]>
                             (<[d := obj_at (objs st) s ∪ obj_at (objs st) d]> (objs st))) d
                    = obj_at (objs st) s ∪ obj_at (objs st) d).
  { rewrite obj_at_insert_ne by done. apply obj_at_insert. }
  fold key. rewrite Hmerged. repeat split.
  - intros k v Hk. by apply lookup_union_Some_l.
  - intros k Hk. by apply lookup_union_r.
  - rewrite (getConfig_top_level _ c) by done. cbn [objs].
    by rewrite obj_at_insert, lookup_insert_eq.
Qed.

(** C7. The Pebo-based [registerPlugin] has no check of the name: a
    descriptor without [name] is registered on a new engine like any
    other, where the claim has the registration fail. *)
Theorem registerPlugin_accepts_missing_name this c descs objs plugin d :
  let st := constructor this c (<[plugin := Plugin.set_name None d]> descs) objs in
  (registerPlugin camelCase plugin st).1 = Normal this
  ∧ plugins (registerPlugin camelCase plugin st).2 = [plugin].
Proof.
  intros st. subst st.
  rewrite (registerPlugin_empty_config _ plugin c);
    [done | done | apply obj_at_insert].
Qed.

(** C4. [call] hands back what the extension returned: when the extension
    ["P:double"] returns the plain number, [call("P:double", 5)] is the
    number 10 itself and not a promise of it, where the claim has the
    value wrapped in a resolved promise. *)
Theorem call_returns_plain_value this c objs :
  let st := (registerPlugin camelCase 1
               (constructor this c {[1 := Examples.pluginP]} objs)).2 in
  call [VStr "P:double"; VNum 5] st = Normal (Plain (VNum 10))
  ∧ call [VStr "P:double"; VNum 5] st ≠ Normal (Future (Resolved (VNum 10))).
Proof.
  intros st. subst st.
  rewrite (registerPlugin_empty_config _ 1 c); [| done | apply obj_at_insert].
  assert (Hcall : ∀ st, extensions st !! "P:double" = Some Examples.double →
                        call [VStr "P:double"; VNum 5] st = Normal (Plain (VNum 10))).
  { intros st Hext. by rewrite (call_registered array_member _ _ _ _ Hext). }
  rewrite Hcall; [by split |].
  cbn [snd extensions constructor descs]. unfold desc_at.
  rewrite lookup_singleton_eq. cbn. apply lookup_insert_eq.
Qed.

End RegisterPluginFacts.

Section LagerLibRegistry.

(** [src/lib/lager.js] refuses a descriptor without a truthy name, before
    any write. *)
Lemma lib_registerPlugin_requires_name plugin st :
  name_truthy (Plugin.name (desc_at (LagerLib.descs st) plugin)) = false →
  LagerLib.registerPlugin plugin st
  = (Throw (Error "A lager plugin MUST have a name property"), st).
Proof. intros Hname. unfold LagerLib.registerPlugin. by rewrite Hname. Qed.

(** With a name it injects [getPath], appends and returns the engine. *)
Lemma lib_registerPlugin_named plugin st :
  name_truthy (Plugin.name (desc_at (LagerLib.descs st) plugin)) = true →
  LagerLib.registerPlugin plugin st
  = (Normal (LagerLib.self st),
     LagerLib.mkState (LagerLib.self st) (LagerLib.plugins st ++ [plugin])
       (<[plugin := Plugin.set_getPath (Some (GetBasePath plugin))
                      (desc_at (LagerLib.descs st) plugin)]> (LagerLib.descs st))).
Proof. intros Hname. unfold LagerLib.registerPlugin. by rewrite Hname. Qed.

(** [getPlugin] of [src/lib/lager.js] returns the first descriptor with
    the name. *)
Lemma lib_getPlugin_first st name before p after :
  LagerLib.plugins st = before ++ p :: after →
  (∀ q, q ∈ before → name_is name (desc_at (LagerLib.descs st) q) = false) →
  name_is name (desc_at (LagerLib.descs st) p) = true →
  LagerLib.getPlugin name st = Some p.
Proof.
  intros Hps Hbefore Hp. unfold LagerLib.getPlugin. rewrite Hps. clear Hps.
  induction before as [| q before IH]; cbn.
  - by rewrite Hp.
  - rewrite (Hbefore q) by set_solver. apply IH. intros r Hr. apply Hbefore. set_solver.
Qed.

(** Without a match it returns [undefined]; nothing is thrown. *)
Lemma lib_getPlugin_not_found st name :
  (∀ q, q ∈ LagerLib.plugins st → name_is name (desc_at (LagerLib.descs st) q) = false) →
  LagerLib.getPlugin name st = None.
Proof.
  intros Hnone. unfold LagerLib.getPlugin.
  induction (LagerLib.plugins st) as [| q ps IH]; cbn; [done |].
  rewrite (Hnone q) by set_solver. apply IH. intros r Hr. apply Hnone. set_solver.
Qed.

(** C8. [getPlugin] of [src/lib/lager.js] has no failure for a name that
    is not registered: with plugins A and B registered,
    [getPlugin("missing")] returns [undefined], where the claim has it
    fail with a PluginNotFound error. *)
Theorem lib_getPlugin_missing_is_undefined :
  LagerLib.getPlugin "missing" (Examples.engineAB "deploy") = None.
Proof. reflexivity. Qed.

End LagerLibRegistry.

Section AcrossEngines.

(** C10. [registerPlugin] writes into the descriptor object it is given.
    The Pebo-based engine stores a reference to itself in [lager], merges
    the project's object into the descriptor's own config object [d]
    (which stays the descriptor's [config]), and puts the reference to
    that same object [d] under the key of its config; [src/lib/lager.js]
    stores the [getPath] closure.  Both registries hold the reference to
    the descriptor that was passed. *)
Theorem registerPlugin_mutates_descriptor (camelCase : string → string)
    (st : LagerPebo.state) plugin c s d (lst : LagerLib.state) lplugin :
  let key := camelCase (default EmptyString (Plugin.name (desc_at (LagerPebo.descs st) plugin))) in
  let st' := (LagerPebo.registerPlugin camelCase plugin st).2 in
  let lst' := (LagerLib.registerPlugin lplugin lst).2 in
  LagerPebo.split "." key = [key] →
  LagerPebo.config st = VRef c →
  LagerPebo.obj_at (LagerPebo.objs st) c !! key = Some (VRef s) →
  Plugin.config (desc_at (LagerPebo.descs st) plugin) = Some d →
  d ≠ c →
  name_truthy (Plugin.name (desc_at (LagerLib.descs lst) lplugin)) = true →
  (LagerPebo.plugins st' = LagerPebo.plugins st ++ [plugin]
   ∧ Plugin.lager (desc_at (LagerPebo.descs st') plugin) = Some (LagerPebo.self st)
   ∧ Plugin.config (desc_at (LagerPebo.descs st') plugin) = Some d
   ∧ LagerPebo.obj_at (LagerPebo.objs st') d
     = LagerPebo.obj_at (LagerPebo.objs st) s ∪ LagerPebo.obj_at (LagerPebo.objs st) d
   ∧ LagerPebo.obj_at (LagerPebo.objs st') c !! key = Some (VRef d))
  ∧ (LagerLib.plugins lst' = LagerLib.plugins lst ++ [lplugin]
     ∧ Plugin.getPath (desc_at (LagerLib.descs lst') lplugin)
       = Some (GetBasePath lplugin)).
Proof.
  intros key st' lst' Hsplit Hc Hs Hd Hdc Hname. subst st' lst'. split.
  - rewrite (registerPlugin_project_config camelCase st plugin c s d Hsplit Hc Hs Hd).
    cbn [snd LagerPebo.plugins LagerPebo.descs LagerPebo.objs].
    rewrite desc_at_insert. cbn [Plugin.lager Plugin.config].
    repeat split.
    + rewrite obj_at_insert_ne by done. apply obj_at_insert.
    + rewrite obj_at_insert. apply lookup_insert_eq.
  - rewrite (lib_registerPlugin_named _ _ Hname).
    cbn [snd LagerLib.plugins LagerLib.descs]. by rewrite desc_at_insert.
Qed.

End AcrossEngines.

Section LagerPeboInstances.
Import LagerPebo Examples.

Lemma call_applies_inherited_member_witness :
  extensions (constructor 0 10 ∅ ∅) !! "push" = None
  ∧ arrayMethods "push" = Some (λ _, Throw TypeError)
  ∧ call arrayMethods [VStr "push"] (constructor 0 10 ∅ ∅) = Throw TypeError.
Proof.
  split; [reflexivity |]. split; [reflexivity |].
  exact (call_applies_inherited_member arrayMethods (constructor 0 10 ∅ ∅) eq_refl eq_refl).
Defined.

Lemma twelve_is_not_ten : 12 ≠ 10.
Proof. discriminate. Defined.

Lemma registerPlugin_merges_project_config_witness :
  split "." "iam" = ["iam"]
  ∧ config projectEngine = VRef 10
  ∧ obj_at (objs projectEngine) 10 !! "iam" = Some (VRef 11)
  ∧ Plugin.config (desc_at (descs projectEngine) 1) = Some 12
  ∧ 12 ≠ 10
  ∧ ((registerPlugin camelCaseWord 1 projectEngine).1 = Normal 0
     ∧ obj_at (objs (registerPlugin camelCaseWord 1 projectEngine).2) 12
       = obj_at (objs projectEngine) 11 ∪ obj_at (objs projectEngine) 12
     ∧ (∀ k v, obj_at (objs projectEngine) 11 !! k = Some v →
               obj_at (objs (registerPlugin camelCaseWord 1 projectEngine).2) 12 !! k
               = Some v)
     ∧ (∀ k, obj_at (objs projectEngine) 11 !! k = None →
             obj_at (objs (registerPlugin camelCaseWord 1 projectEngine).2) 12 !! k
             = obj_at (objs projectEngine) 12 !! k)
     ∧ getConfig (Some "iam") (registerPlugin camelCaseWord 1 projectEngine).2
       = Normal (VRef 12)).
Proof.
  split; [reflexivity |]. split; [reflexivity |]. split; [reflexivity |].
  split; [reflexivity |]. split; [exact twelve_is_not_ten |].
  exact (registerPlugin_merges_project_config camelCaseWord projectEngine 1 10 11 12
           eq_refl eq_refl eq_refl eq_refl twelve_is_not_ten).
Defined.

(** The spec's example evaluated: defaults [{timeout: 30}], project
    config [{timeout: 60}] under the key ["iam"]. *)
Lemma registerPlugin_timeout_example :
  getConfig (Some "iam") (registerPlugin camelCaseWord 1 projectEngine).2
  = Normal (VRef 12)
  ∧ obj_at (objs (registerPlugin camelCaseWord 1 projectEngine).2) 12
    = {["timeout" := VNum 60]}
  ∧ getConfig (Some "iam.timeout") (registerPlugin camelCaseWord 1 projectEngine).2
    = Normal (VNum 60).
Proof. by vm_compute. Qed.

Lemma registerPlugin_mutates_descriptor_witness :
  split "." "iam" = ["iam"]
  ∧ config projectEngine = VRef 10
  ∧ obj_at (objs projectEngine) 10 !! "iam" = Some (VRef 11)
  ∧ Plugin.config (desc_at (descs projectEngine) 1) = Some 12
  ∧ 12 ≠ 10
  ∧ name_truthy
      (Plugin.name (desc_at (LagerLib.descs (LagerLib.constructor 0 (storeAB "deploy"))) 1))
    = true
  ∧ ((plugins (registerPlugin camelCaseWord 1 projectEngine).2 = [1]
      ∧ Plugin.lager (desc_at (descs (registerPlugin camelCaseWord 1 projectEngine).2) 1)
        = Some 0
      ∧ Plugin.config (desc_at (descs (registerPlugin camelCaseWord 1 projectEngine).2) 1)
        = Some 12
      ∧ obj_at (objs (registerPlugin camelCaseWord 1 projectEngine).2) 12
        = obj_at (objs projectEngine) 11 ∪ obj_at (objs projectEngine) 12
      ∧ obj_at (objs (registerPlugin camelCaseWord 1 projectEngine).2) 10 !! "iam"
        = Some (VRef 12))
     ∧ (LagerLib.plugins
          (LagerLib.registerPlugin 1 (LagerLib.constructor 0 (storeAB "deploy"))).2 = [1]
        ∧ Plugin.getPath
            (desc_at
               (LagerLib.descs
                  (LagerLib.registerPlugin 1
                     (LagerLib.constructor 0 (storeAB "deploy"))).2) 1)
          = Some (GetBasePath 1))).
Proof.
  split; [reflexivity |]. split; [reflexivity |]. split; [reflexivity |].
  split; [reflexivity |]. split; [exact twelve_is_not_ten |]. split; [reflexivity |].
  exact (registerPlugin_mutates_descriptor camelCaseWord projectEngine 1 10 11 12
           (LagerLib.constructor 0 (storeAB "deploy")) 1
           eq_refl eq_refl eq_refl eq_refl twelve_is_not_ten eq_refl).
Defined.

End LagerPeboInstances.

(** * Further properties of [fire] in [src/lib/lager.js] *)

Section FireFacts.
Import LagerLib.

Lemma adopt_adopt {A} (r : completion (promise A)) : adopt (adopt r) = adopt r.
Proof. by destruct r. Qed.

(** The chain reads the engine through its descriptors only. *)
Lemma callRest_descs st1 st2 eventName rest i args :
  descs st1 = descs st2 →
  callRest st1 eventName rest i args = callRest st2 eventName rest i args.
Proof.
  intros Hd.
  assert (Hh : ∀ p, hook_of st1 p eventName = hook_of st2 p eventName).
  { intros p. unfold hook_of. by rewrite Hd. }
  revert i args. induction rest as [| p rest IH]; intros i args; cbn; [done |].
  rewrite Hh. destruct (hook_of st2 p eventName) as [h |]; [| by rewrite IH].
  destruct (h p args) as [[args' | e] | e]; [| done..]. by rewrite IH.
Qed.

(** Starting the chain [n] positions later moves every invocation by [n]
    and changes nothing else. *)
Lemma callRest_shift st eventName rest n i args :
  callRest st eventName rest (n + i) args
  = (prod_map (Nat.add n) id <$> (callRest st eventName rest i args).1,
     (callRest st eventName rest i args).2).
Proof.
  revert i args. induction rest as [| p rest IH]; intros i args; cbn; [done |].
  destruct (hook_of st p eventName) as [h |].
  - destruct (h p args) as [[args' | e] | e]; cbn; [| done..].
    replace (n + i + 1) with (n + (i + 1)) by lia. by rewrite IH.
  - replace (n + i + 1) with (n + (i + 1)) by lia. by rewrite IH.
Qed.

(** Plugins without the hook in front of the chain are passed over. *)
Lemma callRest_skip st eventName before rest i args :
  (∀ q, q ∈ before → hook_of st q eventName = None) →
  callRest st eventName (before ++ rest) i args
  = callRest st eventName rest (i + length before) args.
Proof.
  revert i. induction before as [| q before IH]; intros i Hnone; cbn.
  - by rewrite Nat.add_0_r.
  - rewrite (Hnone q) by set_solver. rewrite IH by (intros r Hr; apply Hnone; set_solver).
    f_equal. lia.
Qed.

(** Invocations are listed by increasing position. *)
Lemma callRest_increasing st eventName rest i args k1 k2 x y :
  k1 < k2 →
  (callRest st eventName rest i args).1 !! k1 = Some x →
  (callRest st eventName rest i args).1 !! k2 = Some y →
  x.1 < y.1.
Proof.
  revert i args k1 k2. induction rest as [| p rest IH]; intros i args k1 k2 Hlt; cbn.
  { done. }
  destruct (hook_of st p eventName) as [h |]; [| by apply IH].
  destruct (h p args) as [[args' | e] | e]; cbn.
  - destruct k2 as [| k2]; [lia |]. destruct k1 as [| k1]; cbn.
    + intros [= <-] Hy. apply list_elem_of_lookup_2 in Hy. destruct y as [j b].
      apply callRest_position in Hy. cbn. lia.
    + apply IH. lia.
  - destruct k2 as [| k2]; [lia |]. intros _ Hy. by destruct k2.
  - destruct k2 as [| k2]; [lia |]. intros _ Hy. by destruct k2.
Qed.

Lemma callRest_implementers st eventName rest i args j b :
  (j, b) ∈ (callRest st eventName rest i args).1 →
  ∃ p h, rest !! (j - i) = Some p ∧ hook_of st p eventName = Some h.
Proof.
  revert i args. induction rest as [| p rest IH]; intros i args; cbn.
  { by intros ?%elem_of_nil. }
  assert (Hlater : ∀ args0, (j, b) ∈ (callRest st eventName rest (i + 1) args0).1 →
                   ∃ q h, (p :: rest) !! (j - i) = Some q ∧ hook_of st q eventName = Some h).
  { intros args0 Hin. pose proof (callRest_position _ _ _ _ _ _ _ Hin).
    destruct (IH _ _ Hin) as (q & h & Hq & Hh). exists q, h. split; [| done].
    by replace (j - i) with (S (j - (i + 1))) by lia. }
  destruct (hook_of st p eventName) as [h |] eqn:Hh; [| by apply Hlater].
  assert (Hhere : (j, b) = (i, args) →
                  ∃ q h, (p :: rest) !! (j - i) = Some q ∧ hook_of st q eventName = Some h).
  { intros [= -> ->]. exists p, h. by rewrite Nat.sub_diag. }
  destruct (h p args) as [[args' | e] | e]; cbn.
  - intros [? | ?]%elem_of_cons; [by apply Hhere | by eapply Hlater].
  - intros ?%list_elem_of_singleton. by apply Hhere.
  - intros ?%list_elem_of_singleton. by apply Hhere.
Qed.

(** A handler that throws ends the chain: its invocation is the last one,
    and the chain throws when it was the only invocation and rejects when
    another one came before it. *)
Lemma callRest_throw st eventName rest k args i a p h e :
  (i, a) ∈ (callRest st eventName rest k args).1 →
  rest !! (i - k) = Some p →
  hook_of st p eventName = Some h →
  h p a = Throw e →
  (∀ j b, (j, b) ∈ (callRest st eventName rest k args).1 → j ≤ i)
  ∧ (((callRest st eventName rest k args).1 = [(i, a)]
      ∧ a = args
      ∧ (callRest st eventName rest k args).2 = Throw e)
     ∨ ((∃ j b, (j, b) ∈ (callRest st eventName rest k args).1 ∧ j < i)
        ∧ (callRest st eventName rest k args).2 = Normal (Rejected e))).
Proof.
  revert k args. induction rest as [| p0 rest IH]; intros k args; cbn.
  { by intros ?%elem_of_nil. }
  destruct (hook_of st p0 eventName) as [h0 |] eqn:Hh0.
  - destruct (h0 p0 args) as [[args' | e0] | e0] eqn:Hrun; cbn.
    + intros [[= -> ->] | Hin]%elem_of_cons Hp Hh Hthrow.
      * rewrite Nat.sub_diag in Hp. injection Hp as <-. congruence.
      * pose proof (callRest_position _ _ _ _ _ _ _ Hin) as Hle.
        replace (i - k) with (S (i - (k + 1))) in Hp by lia. cbn in Hp.
        destruct (IH (k + 1) args' Hin Hp Hh Hthrow) as [Hlast Hres]. split.
        { intros j b [[= -> ->] | Hjb]%elem_of_cons; [lia | by eapply Hlast]. }
        right. split.
        { exists k, args. split; [apply list_elem_of_here | lia]. }
        destruct Hres as [(_ & _ & ->) | [_ ->]]; done.
    + intros [= -> ->]%list_elem_of_singleton Hp Hh Hthrow.
      rewrite Nat.sub_diag in Hp. injection Hp as <-. congruence.
    + intros [= -> ->]%list_elem_of_singleton Hp Hh Hthrow.
      rewrite Nat.sub_diag in Hp. injection Hp as <-.
      assert (h = h0) as -> by congruence. split.
      { by intros j b [= -> ->]%list_elem_of_singleton. }
      left. repeat split. congruence.
  - intros Hin Hp Hh Hthrow.
    pose proof (callRest_position _ _ _ _ _ _ _ Hin) as Hle.
    replace (i - k) with (S (i - (k + 1))) in Hp by lia. cbn in Hp.
    by apply IH.
Qed.

(** A chain throws only out of its first invocation. *)
Lemma callRest_throws_first st eventName rest k args e :
  (callRest st eventName rest k args).2 = Throw e →
  ∃ i p h, (callRest st eventName rest k args).1 = [(i, args)]
           ∧ rest !! (i - k) = Some p
           ∧ hook_of st p eventName = Some h
           ∧ h p args = Throw e.
Proof.
  revert k. induction rest as [| p0 rest IH]; intros k; cbn; [done |].
  destruct (hook_of st p0 eventName) as [h0 |] eqn:Hh0.
  - destruct (h0 p0 args) as [[args' | e0] | e0] eqn:Hrun; cbn.
    + by destruct (callRest st eventName rest (k + 1) args').2.
    + done.
    + intros [= ->]. exists k, p0, h0. by rewrite Nat.sub_diag.
  - intros Hthrow. destruct (IH _ Hthrow) as (i & p & h & Htr & Hp & Hh & Hrun).
    exists i, p, h. repeat split; try done.
    assert (k + 1 ≤ i).
    { eapply callRest_position. rewrite Htr. apply list_elem_of_here. }
    by replace (i - k) with (S (i - (k + 1))) by lia.
Qed.

(** The chain over [ps1 ++ ps2] is the chain over [ps1] followed, when
    that resolves, by the chain over [ps2] on the resolved tuple. *)
Lemma callRest_app st eventName ps1 ps2 i args :
  callRest st eventName (ps1 ++ ps2) i args
  = match (callRest st eventName ps1 i args).2 with
    | Normal (Resolved args') =>
        ((callRest st eventName ps1 i args).1
         ++ (callRest st eventName ps2 (i + length ps1) args').1,
         match (callRest st eventName ps1 i args).1 with
         | [] => (callRest st eventName ps2 (i + length ps1) args').2
         | _ => adopt (callRest st eventName ps2 (i + length ps1) args').2
         end)
    | _ => callRest st eventName ps1 i args
    end.
Proof.
  revert i args. induction ps1 as [| p ps1 IH]; intros i args; cbn.
  { rewrite Nat.add_0_r. by destruct (callRest st eventName ps2 i args). }
  replace (i + S (length ps1)) with (i + 1 + length ps1) by lia.
  destruct (hook_of st p eventName) as [h |]; [| apply IH].
  destruct (h p args) as [[args' | e] | e]; cbn; [| done..].
  rewrite IH.
  destruct (callRest st eventName ps1 (i + 1) args').2 as [[args'' | e] | e] eqn:Hres;
    cbn; [| by rewrite ?Hres..].
  f_equal. destruct (callRest st eventName ps1 (i + 1) args').1; [done |].
  apply adopt_adopt.
Qed.

(** A plugin without the hook can be taken out of the chain: the tuples
    the handlers receive and the result stay the same. *)
Lemma callRest_filter st eventName rest i j args :
  (callRest st eventName
     (filter (λ p, is_Some (hook_of st p eventName)) rest) j args).1.*2
  = (callRest st eventName rest i args).1.*2
  ∧ (callRest st eventName
       (filter (λ p, is_Some (hook_of st p eventName)) rest) j args).2
    = (callRest st eventName rest i args).2.
Proof.
  revert i j args. induction rest as [| p rest IH]; intros i j args; [done |].
  destruct (hook_of st p eventName) as [h |] eqn:Hh.
  - rewrite filter_cons_True by (by rewrite Hh). cbn. rewrite Hh.
    destruct (h p args) as [[args' | e] | e]; cbn; [| done..].
    destruct (IH (i + 1) (j + 1) args') as [-> ->]. done.
  - rewrite filter_cons_False by (rewrite Hh; by intros [? ?]). cbn. rewrite Hh.
    apply IH.
Qed.

End FireFacts.

Section FireProperties.
Import LagerLib.

Lemma callRest_head st eventName rest i args j b :
  head (callRest st eventName rest i args).1 = Some (j, b) → b = args.
Proof.
  revert i. induction rest as [| p rest IH]; intros i; cbn; [done |].
  destruct (hook_of st p eventName) as [h |]; [| apply IH].
  destruct (h p args) as [[args' | e] | e]; cbn; congruence.
Qed.

(** X1. Whatever the handlers do, [fire] only applies what it finds under
    the event name in the hooks of a registered plugin (the plugin's own
    handler, or the member its hooks object inherits), at strictly
    increasing positions of the registry (so no position is visited twice
    and none out of registration order; a descriptor registered at two
    positions is visited at each), and the first invocation receives the
    tuple [fire] was called with. *)
Theorem fire_invocations_wellformed st eventName args :
  (∀ j b, (j, b) ∈ (fire st eventName args).1 →
          ∃ p h, plugins st !! j = Some p ∧ hook_of st p eventName = Some h)
  ∧ (∀ k1 k2 x y, k1 < k2 →
       (fire st eventName args).1 !! k1 = Some x →
       (fire st eventName args).1 !! k2 = Some y → x.1 < y.1)
  ∧ (∀ j b, head (fire st eventName args).1 = Some (j, b) → b = args).
Proof.
  rewrite fire_rest. repeat split.
  - intros j b Hin. destruct (callRest_implementers _ _ _ _ _ _ _ Hin) as (p & h & Hp & Hh).
    exists p, h. by rewrite Nat.sub_0_r in Hp.
  - intros k1 k2 x y. apply callRest_increasing.
  - intros j b. apply callRest_head.
Qed.

(** X2. When the first registered plugin under whose hooks [fire] finds a
    member for the event (every plugin before it has no [hooks], or a
    hooks object with nothing under the event name, own or inherited) has
    a handler that throws instead of returning a promise, [fire] itself
    throws that error (no promise is returned), after that one invocation
    with the original tuple. *)
Theorem fire_first_handler_throw st eventName args before p after h e :
  plugins st = before ++ p :: after →
  (∀ q, q ∈ before → hook_of st q eventName = None) →
  hook_of st p eventName = Some h →
  h p args = Throw e →
  fire st eventName args = ([(length before, args)], Throw e).
Proof.
  intros Hps Hbefore Hh Hthrow. rewrite fire_rest, Hps, callRest_skip by done.
  cbn. by rewrite Hh, Hthrow.
Qed.

(** X3. When a handler throws after an earlier handler of the same [fire]
    was invoked, the throw happens inside the promise chain: [fire] returns
    a promise rejected with that error, and no later handler is invoked. *)
Theorem fire_later_handler_throw st eventName args i a j b p h e :
  (j, b) ∈ (fire st eventName args).1 →
  j < i →
  (i, a) ∈ (fire st eventName args).1 →
  plugins st !! i = Some p →
  hook_of st p eventName = Some h →
  h p a = Throw e →
  (fire st eventName args).2 = Normal (Rejected e)
  ∧ ∀ k c, (k, c) ∈ (fire st eventName args).1 → k ≤ i.
Proof.
  rewrite fire_rest. intros Hj Hlt Hi Hp Hh Hthrow.
  rewrite <- (Nat.sub_0_r i) in Hp.
  destruct (callRest_throw _ _ _ _ _ _ _ _ _ _ Hi Hp Hh Hthrow) as [Hlast Hres].
  split; [| done]. destruct Hres as [(Htr & _ & _) | [_ Hres]]; [| done].
  rewrite Htr in Hj. apply list_elem_of_singleton in Hj. injection Hj as -> ->. lia.
Qed.

(** X4. [fire] throws only in one way: exactly one member found under the
    event name was applied, with the original tuple, and applying it and
    calling [.spread] on its result threw the error (the handler threw, or
    what was applied has no promise to return: an inherited member, or a
    handler that returns something without [spread]).  In every other case
    [fire] returns a promise. *)
Theorem fire_throws_only_first st eventName args e :
  (fire st eventName args).2 = Throw e →
  ∃ i p h, (fire st eventName args).1 = [(i, args)]
           ∧ plugins st !! i = Some p
           ∧ hook_of st p eventName = Some h
           ∧ h p args = Throw e.
Proof.
  rewrite fire_rest. intros Hthrow.
  destruct (callRest_throws_first _ _ _ _ _ _ Hthrow) as (i & p & h & Htr & Hp & Hh & Hrun).
  exists i, p, h. by rewrite Nat.sub_0_r in Hp.
Qed.

(** X5. Plugins under whose hooks [fire] finds nothing for the event
    (they have no [hooks], or a hooks object with nothing under the event
    name, own or inherited) are transparent to [fire]: on the registry
    without them the same tuples are handed over in the same order and the
    result is the same. *)
Theorem fire_skips_non_implementers st eventName args :
  let st' := mkState (self st)
               (filter (λ p, is_Some (hook_of st p eventName)) (plugins st)) (descs st) in
  (fire st' eventName args).1.*2 = (fire st eventName args).1.*2
  ∧ (fire st' eventName args).2 = (fire st eventName args).2.
Proof.
  intros st'. rewrite !fire_rest. subst st'. cbn [plugins].
  rewrite (callRest_descs _ st) by done. apply callRest_filter.
Qed.

(** X6. Firing over a registry [ps1 ++ ps2] is firing over [ps1] and then,
    when that resolves, firing over [ps2] with the resolved tuple: the
    invocations are those of the two parts (the second part's positions
    moved by the length of the first) and the promise settles like the
    second part's.  When the first part rejects or throws, the plugins of
    [ps2] play no role. *)
Theorem fire_app this descs ps1 ps2 eventName args :
  let st := mkState this (ps1 ++ ps2) descs in
  let st1 := mkState this ps1 descs in
  let st2 := mkState this ps2 descs in
  match (fire st1 eventName args).2 with
  | Normal (Resolved args') =>
      (fire st eventName args).1
      = (fire st1 eventName args).1
        ++ (prod_map (Nat.add (length ps1)) id <$> (fire st2 eventName args').1)
      ∧ adopt (fire st eventName args).2 = adopt (fire st2 eventName args').2
  | _ => fire st eventName args = fire st1 eventName args
  end.
Proof.
  intros st st1 st2. rewrite !fire_rest. subst st st1 st2. cbn [plugins].
  set (st := mkState this (ps1 ++ ps2) descs).
  rewrite (callRest_descs (mkState this ps1 descs) st) by done.
  rewrite callRest_app. cbn [Nat.add].
  destruct (callRest st eventName ps1 0 args).2 as [[args' | e] | e] eqn:Hres; [| done..].
  rewrite fire_rest. cbn [plugins].
  rewrite (callRest_descs (mkState this ps2 descs) st) by done.
  rewrite <- (Nat.add_0_r (length ps1)), callRest_shift. cbn [fst snd].
  rewrite !Nat.add_0_r. split; [done |].
  destruct (callRest st eventName ps1 0 args).1; [done | apply adopt_adopt].
Qed.

(** X31. If [fire] finds nothing under the event name in the hooks of any
    registered plugin (each has no [hooks], or a hooks object with nothing
    under the event name, own or inherited; an empty registry included),
    [fire(event, ...T)] resolves with [T] unchanged and applies nothing,
    however many plugins are registered. *)
Theorem fire_unhandled_passthrough st eventName T :
  (∀ p, p ∈ plugins st → hook_of st p eventName = None) →
  fire st eventName T = ([], Normal (Resolved T)).
Proof. intros Hnone. rewrite fire_rest. by apply callRest_unhandled. Qed.

(** X32. An event named like a member of [Object.prototype] is not passed
    through by a plugin that has a hooks object: when the first registered
    plugin with [hooks] has no handler of its own for such an event,
    [fire] applies the inherited member and throws a TypeError, after that
    one invocation. *)
Theorem fire_inherited_member st eventName args before p after hs :
  plugins st = before ++ p :: after →
  (∀ q, q ∈ before → Plugin.hooks (desc_at (descs st) q) = None) →
  Plugin.hooks (desc_at (descs st) p) = Some hs →
  assoc eventName hs = None →
  eventName ∈ object_prototype_members →
  fire st eventName args = ([(length before, args)], Throw TypeError).
Proof.
  intros Hps Hbefore Hhs Hown Hin. rewrite fire_rest, Hps, callRest_skip.
  - cbn. unfold hook_of. by rewrite Hhs, Hown, bool_decide_true.
  - intros q Hq. unfold hook_of. by rewrite (Hbefore q Hq).
Qed.

End FireProperties.

Section FirePropertiesInstances.
Import LagerLib Examples MoreExamples.

Lemma fire_first_handler_throw_witness :
  plugins (registerAll [1; 2; 3] (storeThrowFirst "deploy" (Error "boom"))) = [1] ++ 2 :: [3]
  ∧ (∀ q, q ∈ [1] →
          hook_of (registerAll [1; 2; 3] (storeThrowFirst "deploy" (Error "boom"))) q "deploy"
          = None)
  ∧ hook_of (registerAll [1; 2; 3] (storeThrowFirst "deploy" (Error "boom"))) 2 "deploy"
    = Some (throwHook (Error "boom"))
  ∧ throwHook (Error "boom") 2 [VStr "x"] = Throw (Error "boom")
  ∧ fire (registerAll [1; 2; 3] (storeThrowFirst "deploy" (Error "boom"))) "deploy" [VStr "x"]
    = ([(1, [VStr "x"])], Throw (Error "boom")).
Proof.
  assert (Hbefore : ∀ q, q ∈ [1] →
            hook_of (registerAll [1; 2; 3] (storeThrowFirst "deploy" (Error "boom"))) q "deploy"
            = None).
  { intros q Hq. apply list_elem_of_singleton in Hq. by subst q. }
  split; [reflexivity |]. split; [exact Hbefore |]. split; [reflexivity |].
  split; [reflexivity |].
  exact (fire_first_handler_throw
           (registerAll [1; 2; 3] (storeThrowFirst "deploy" (Error "boom")))
           "deploy" [VStr "x"] [1] 2 [3] (throwHook (Error "boom")) (Error "boom")
           eq_refl Hbefore eq_refl eq_refl).
Defined.

Lemma zero_lt_one : 0 < 1.
Proof. exact (le_n 1). Defined.

Lemma fire_later_handler_throw_witness :
  (0, [VStr "x"])
    ∈ (fire (registerAll [1; 2; 3] (storeThrowLater "deploy" (Error "boom")))
            "deploy" [VStr "x"]).1
  ∧ 0 < 1
  ∧ (1, [VStr "x-A"])
      ∈ (fire (registerAll [1; 2; 3] (storeThrowLater "deploy" (Error "boom")))
              "deploy" [VStr "x"]).1
  ∧ plugins (registerAll [1; 2; 3] (storeThrowLater "deploy" (Error "boom"))) !! 1 = Some 2
  ∧ hook_of (registerAll [1; 2; 3] (storeThrowLater "deploy" (Error "boom"))) 2 "deploy"
    = Some (throwHook (Error "boom"))
  ∧ throwHook (Error "boom") 2 [VStr "x-A"] = Throw (Error "boom")
  ∧ (fire (registerAll [1; 2; 3] (storeThrowLater "deploy" (Error "boom")))
          "deploy" [VStr "x"]).2 = Normal (Rejected (Error "boom"))
  ∧ ∀ k c, (k, c) ∈ (fire (registerAll [1; 2; 3] (storeThrowLater "deploy" (Error "boom")))
                          "deploy" [VStr "x"]).1 → k ≤ 1.
Proof.
  assert (H0 : (0, [VStr "x"])
                 ∈ (fire (registerAll [1; 2; 3] (storeThrowLater "deploy" (Error "boom")))
                         "deploy" [VStr "x"]).1).
  { apply list_elem_of_here. }
  assert (H1 : (1, [VStr "x-A"])
                 ∈ (fire (registerAll [1; 2; 3] (storeThrowLater "deploy" (Error "boom")))
                         "deploy" [VStr "x"]).1).
  { apply list_elem_of_further, list_elem_of_here. }
  split; [exact H0 |]. split; [exact zero_lt_one |]. split; [exact H1 |].
  split; [reflexivity |]. split; [reflexivity |]. split; [reflexivity |].
  exact (fire_later_handler_throw
           (registerAll [1; 2; 3] (storeThrowLater "deploy" (Error "boom")))
           "deploy" [VStr "x"] 1 [VStr "x-A"] 0 [VStr "x"] 2
           (throwHook (Error "boom")) (Error "boom")
           H0 zero_lt_one H1 eq_refl eq_refl eq_refl).
Defined.

Lemma fire_throws_only_first_witness :
  (fire (registerAll [1; 2; 3] (storeThrowFirst "deploy" (Error "boom")))
        "deploy" [VStr "x"]).2 = Throw (Error "boom")
  ∧ ∃ i p h,
      (fire (registerAll [1; 2; 3] (storeThrowFirst "deploy" (Error "boom")))
            "deploy" [VStr "x"]).1 = [(i, [VStr "x"])]
      ∧ plugins (registerAll [1; 2; 3] (storeThrowFirst "deploy" (Error "boom"))) !! i
        = Some p
      ∧ hook_of (registerAll [1; 2; 3] (storeThrowFirst "deploy" (Error "boom"))) p "deploy"
        = Some h
      ∧ h p [VStr "x"] = Throw (Error "boom").
Proof.
  split; [reflexivity |].
  exact (fire_throws_only_first
           (registerAll [1; 2; 3] (storeThrowFirst "deploy" (Error "boom")))
           "deploy" [VStr "x"] (Error "boom") eq_refl).
Defined.

Lemma fire_unhandled_passthrough_witness :
  (∀ p, p ∈ plugins (engineAB "build") → hook_of (engineAB "build") p "deploy" = None)
  ∧ fire (engineAB "build") "deploy" [VStr "x"; VNum 7]
    = ([], Normal (Resolved [VStr "x"; VNum 7])).
Proof.
  assert (Hnone : ∀ p, p ∈ plugins (engineAB "build") →
                       hook_of (engineAB "build") p "deploy" = None).
  { intros p Hp. change (p ∈ [1; 2]) in Hp.
    apply elem_of_cons in Hp as [-> | Hp];
      [| apply elem_of_cons in Hp as [-> | Hp]; [| by apply elem_of_nil in Hp]].
    all: reflexivity. }
  split; [exact Hnone |].
  exact (fire_unhandled_passthrough (engineAB "build") "deploy" [VStr "x"; VNum 7] Hnone).
Defined.

Lemma toString_is_inherited : "toString" ∈ object_prototype_members.
Proof. apply (bool_decide_unpack _). by vm_compute. Qed.

Lemma nothing_before_first : ∀ q, q ∈ [] → Plugin.hooks (desc_at (descs (engineAB "build")) q) = None.
Proof. by intros q ?%elem_of_nil. Qed.

Lemma fire_inherited_member_witness :
  plugins (engineAB "build") = [] ++ 1 :: [2]
  ∧ (∀ q, q ∈ [] → Plugin.hooks (desc_at (descs (engineAB "build")) q) = None)
  ∧ Plugin.hooks (desc_at (descs (engineAB "build")) 1) = Some [("build", appendHook "-A")]
  ∧ assoc "toString" [("build", appendHook "-A")] = None
  ∧ "toString" ∈ object_prototype_members
  ∧ fire (engineAB "build") "toString" [VStr "x"]
    = ([(length (@nil loc), [VStr "x"])], Throw TypeError).
Proof.
  split; [reflexivity |]. split; [exact nothing_before_first |].
  split; [reflexivity |]. split; [reflexivity |]. split; [exact toString_is_inherited |].
  exact (fire_inherited_member (engineAB "build") "toString" [VStr "x"] [] 1 [2]
           [("build", appendHook "-A")]
           eq_refl nothing_before_first eq_refl eq_refl toString_is_inherited).
Defined.

End FirePropertiesInstances.

(** * Further properties of the registry of [src/lib/lager.js] *)

Section LibRegistryProperties.
Import LagerLib.

Lemma name_is_true name d : name_is name d = true ↔ Plugin.name d = Some name.
Proof.
  unfold name_is. destruct (Plugin.name d) as [s |]; [| done].
  rewrite String.eqb_eq. split; congruence.
Qed.

Lemma name_is_false name d : name_is name d = false ↔ Plugin.name d ≠ Some name.
Proof. rewrite <- name_is_true. by destruct (name_is name d). Qed.

(** What [_.find] with a predicate returns: the first element that
    satisfies it. *)
Lemma find_first {A} (f : A → bool) (l : list A) :
  match List.find f l with
  | Some x => ∃ before after, l = before ++ x :: after
                              ∧ (∀ y, y ∈ before → f y = false) ∧ f x = true
  | None => ∀ y, y ∈ l → f y = false
  end.
Proof.
  induction l as [| a l IH]; cbn; [by intros y ?%elem_of_nil |].
  destruct (f a) eqn:Ha.
  - exists [], l. repeat split; [| done]. by intros y ?%elem_of_nil.
  - destruct (List.find f l) as [x |].
    + destruct IH as (before & after & -> & Hbefore & Hx).
      exists (a :: before), after. repeat split; [| done].
      intros y [-> | Hy]%elem_of_cons; [done | by apply Hbefore].
    + intros y [-> | Hy]%elem_of_cons; [done | by apply IH].
Qed.

Lemma find_app_one {A} (f : A → bool) (l : list A) (x : A) :
  List.find f (l ++ [x])
  = match List.find f l with
    | Some y => Some y
    | None => if f x then Some x else None
    end.
Proof.
  induction l as [| a l IH]; cbn; [done |]. by destruct (f a).
Qed.

Lemma find_ext_in {A} (f g : A → bool) (l : list A) :
  (∀ y, f y = g y) → List.find f l = List.find g l.
Proof. intros Hfg. induction l as [| a l IH]; cbn; [done |]. by rewrite Hfg, IH. Qed.

(** Registration leaves every name as it is. *)
Lemma lib_registerPlugin_names plugin st q :
  Plugin.name (desc_at (descs (registerPlugin plugin st).2) q)
  = Plugin.name (desc_at (descs st) q).
Proof.
  unfold registerPlugin.
  destruct (negb (name_truthy (Plugin.name (desc_at (descs st) plugin)))); [done |].
  cbn [snd descs]. unfold desc_at at 1.
  destruct (decide (plugin = q)) as [-> | Hne].
  - by rewrite lookup_insert_eq.
  - by rewrite lookup_insert_ne.
Qed.

(** X7. [getPlugin] of [src/lib/lager.js] returns the descriptor that was
    registered first among those with the name: every descriptor before it
    in the registry has another name (or none); and it returns [undefined]
    exactly when no registered descriptor has the name. *)
Theorem lib_getPlugin_first_match st name :
  match getPlugin name st with
  | Some p =>
      ∃ before after, plugins st = before ++ p :: after
        ∧ (∀ q, q ∈ before → Plugin.name (desc_at (descs st) q) ≠ Some name)
        ∧ Plugin.name (desc_at (descs st) p) = Some name
  | None => ∀ q, q ∈ plugins st → Plugin.name (desc_at (descs st) q) ≠ Some name
  end.
Proof.
  unfold getPlugin.
  pose proof (find_first (λ p, name_is name (desc_at (descs st) p)) (plugins st)) as Hfind.
  destruct (List.find _ _) as [p |].
  - destruct Hfind as (before & after & Hps & Hbefore & Hp).
    exists before, after. repeat split; [done | | by apply name_is_true].
    intros q Hq. by apply name_is_false, Hbefore.
  - intros q Hq. by apply name_is_false, Hfind.
Qed.

(** X8. What [getPlugin] finds after a [registerPlugin]: a name that was
    found before is still answered by the same descriptor (a later
    registration never takes a name over), and a name that was not found is
    answered by the new descriptor exactly when it was accepted and carries
    that name. *)
Theorem lib_getPlugin_after_registerPlugin st plugin name :
  getPlugin name (registerPlugin plugin st).2
  = match getPlugin name st with
    | Some q => Some q
    | None =>
        if name_truthy (Plugin.name (desc_at (descs st) plugin))
           && name_is name (desc_at (descs st) plugin)
        then Some plugin else None
    end.
Proof.
  unfold getPlugin.
  rewrite (find_ext_in _ (λ p, name_is name (desc_at (descs st) p)))
    by (intros q; unfold name_is; by rewrite lib_registerPlugin_names).
  unfold registerPlugin.
  destruct (name_truthy (Plugin.name (desc_at (descs st) plugin)));
    cbn [negb snd plugins andb].
  - apply (find_app_one (λ p, name_is name (desc_at (descs st) p))).
  - by destruct (List.find _ _).
Qed.

(** X9. Registering descriptors one call after another leaves in the
    registry exactly those with a truthy name, in the order of the calls,
    after the plugins that were there; a refused call changes nothing. *)
Theorem lib_registerPlugin_sequence st ps :
  plugins (foldl (λ st p, (registerPlugin p st).2) st ps)
  = plugins st
    ++ List.filter (λ p, name_truthy (Plugin.name (desc_at (descs st) p))) ps.
Proof.
  revert st. induction ps as [| p ps IH]; intros st; cbn [foldl List.filter].
  { by rewrite app_nil_r. }
  rewrite IH.
  assert (Hfilter :
    List.filter (λ q, name_truthy (Plugin.name (desc_at (descs (registerPlugin p st).2) q))) ps
    = List.filter (λ q, name_truthy (Plugin.name (desc_at (descs st) q))) ps).
  { apply List.filter_ext. intros q. by rewrite lib_registerPlugin_names. }
  rewrite Hfilter. unfold registerPlugin.
  destruct (name_truthy (Plugin.name (desc_at (descs st) p))); cbn; [| done].
  by rewrite <- app_assoc.
Qed.

(** X10. [registerPlugin] of [src/lib/lager.js] refuses a descriptor whose
    name is absent or the empty string: it throws the Error and leaves the
    registry and the descriptor untouched ([getPath] is not injected).  With
    any other name it returns the engine. *)
Theorem lib_registerPlugin_name_check st plugin :
  match Plugin.name (desc_at (descs st) plugin) with
  | Some (String _ _) => (registerPlugin plugin st).1 = Normal (self st)
  | _ => registerPlugin plugin st
         = (Throw (Error "A lager plugin MUST have a name property"), st)
  end.
Proof.
  unfold registerPlugin.
  by destruct (Plugin.name (desc_at (descs st) plugin)) as [[| ? ?] |].
Qed.

End LibRegistryProperties.

(** * Further properties of the Pebo-based engine *)

Section PeboRegisterOutcome.
Import LagerPebo.
Variable camelCase : string → string.

Ltac proj :=
  unfold set_descs, set_objs, set_plugins, set_events, set_extensions, set_config;
  cbn [self config plugins extensions events descs objs].

(** Writing [lager] into a descriptor leaves the config objects the
    descriptors hold as they are. *)
Lemma omap_config_set_lager (ds : gmap loc Plugin.t) p l :
  omap Plugin.config (<[p := Plugin.set_lager l (desc_at ds p)]> ds)
  = omap Plugin.config ds.
Proof.
  apply map_eq. intros q. rewrite !lookup_omap.
  destruct (decide (p = q)) as [<- | Hne].
  - rewrite lookup_insert_eq. unfold desc_at. by destruct (ds !! p).
  - by rewrite lookup_insert_ne.
Qed.

(** [_.assign] writes the object store only, and reads of the descriptors
    only the config objects they hold. *)
Lemma assign_objs_only target v this cfg ps xs evs ds ds' os :
  omap Plugin.config ds' = omap Plugin.config ds →
  ∃ t o, assign target v (mkState this cfg ps xs evs ds os)
         = (Normal t, mkState this cfg ps xs evs ds o)
         ∧ assign target v (mkState this cfg ps xs evs ds' os)
           = (Normal t, mkState this cfg ps xs evs ds' o).
Proof.
  intros Hds. unfold assign, in_use. proj. rewrite Hds.
  destruct target as [t |], (truthy v); eexists _, _; split; reflexivity.
Qed.

(** When reading the project's section throws, [registerPlugin] throws the
    same error; the descriptor then already holds the engine. *)
Lemma registerPlugin_getConfig_throws st plugin e :
  let dd := desc_at (descs st) plugin in
  let key := camelCase (default EmptyString (Plugin.name dd)) in
  getConfig (Some key) st = Throw e →
  registerPlugin camelCase plugin st
  = (Throw e, set_descs (<[plugin := Plugin.set_lager (Some (self st)) dd]> (descs st)) st).
Proof.
  intros dd key Hget. destruct st as [this cfg ps xs evs ds os].
  cbn [descs objs self plugins extensions events] in *.
  unfold registerPlugin. rewrite bind_get, bind_update_desc, bind_get. proj.
  fold dd key.
  change (getConfig (Some key)
            (mkState this cfg ps xs evs (<[plugin:=Plugin.set_lager (Some this) dd]> ds) os))
    with (getConfig (Some key) (mkState this cfg ps xs evs ds os)).
  by rewrite Hget.
Qed.

(** The whole of [registerPlugin] once the project's section [v] was read:
    [cfg] is the descriptor's config after the merge step and [o] the object
    store after it.  With an object as the engine's config the registration
    goes through; with anything else the write of the section throws. *)
Lemma registerPlugin_outcome st plugin v :
  let dd := desc_at (descs st) plugin in
  let key := camelCase (default EmptyString (Plugin.name dd)) in
  getConfig (Some key) st = Normal v →
  ∃ cfg o,
    ((v = VUndefined ∧ cfg = Plugin.config dd ∧ o = objs st)
     ∨ (v ≠ VUndefined
        ∧ ∃ t, cfg = Some t ∧ assign (Plugin.config dd) v st = (Normal t, set_objs o st)))
    ∧ registerPlugin camelCase plugin st
      = match config st with
        | VRef c =>
            (Normal (self st),
             mkState (self st) (VRef c) (plugins st ++ [plugin])
               (foldl (λ x '(extensionName, fn),
                         <[(default "undefined" (Plugin.name dd) ++ ":"
                            ++ extensionName)%string := fn]> x)
                      (extensions st) (default [] (Plugin.extensions dd)))
               (events st ++ default [] (Plugin.hooks dd))
               (<[plugin := Plugin.mk (Plugin.name dd) (Some (default [] (Plugin.hooks dd)))
                              (Some (default [] (Plugin.extensions dd))) cfg
                              (Some (self st)) (Plugin.getPath dd)]> (descs st))
               (<[c := <[key := config_value cfg]> (obj_at o c)]> o))
        | _ =>
            (Throw TypeError,
             mkState (self st) (config st) (plugins st) (extensions st) (events st)
               (<[plugin := Plugin.mk (Plugin.name dd) (Plugin.hooks dd)
                              (Plugin.extensions dd) cfg (Some (self st))
                              (Plugin.getPath dd)]> (descs st))
               o)
        end.
Proof.
  intros dd key Hget. destruct st as [this cfg0 ps xs evs ds os].
  cbn [descs objs self plugins extensions events config] in *.
  unfold registerPlugin. rewrite bind_get, bind_update_desc, bind_get. proj.
  fold dd key.
  change (getConfig (Some key)
            (mkState this cfg0 ps xs evs (<[plugin:=Plugin.set_lager (Some this) dd]> ds) os))
    with (getConfig (Some key) (mkState this cfg0 ps xs evs ds os)).
  rewrite Hget, bind_lift_normal.
  destruct (decide (v = VUndefined)) as [-> | Hv].
  - exists (Plugin.config dd), os. split; [by left |].
    rewrite bind_ret, bind_get. proj. rewrite !desc_at_insert.
    cbn [Plugin.config Plugin.set_lager].
    unfold bind at 1. unfold set_prop at 1.
    destruct cfg0 as [| | b | n | s | c]; try (unfold throw; by destruct dd).
    unfold modify at 1. proj.
    rewrite bind_modify. proj.
    rewrite bind_update_desc. proj. rewrite !desc_at_insert, !insert_insert_eq.
    rewrite bind_modify. proj.
    rewrite bind_update_desc. proj. rewrite !desc_at_insert, !insert_insert_eq.
    rewrite bind_modify. proj. reflexivity.
  - destruct (assign_objs_only (Plugin.config dd) v this cfg0 ps xs evs ds
                (<[plugin:=Plugin.set_lager (Some this) dd]> ds) os
                (omap_config_set_lager ds plugin (Some this)))
      as (t & o & Hassign & Hassign').
    exists (Some t), o. split; [right; split; [done |]; by exists t |].
    rewrite bind_bind, desc_at_insert. cbn [Plugin.config Plugin.set_lager].
    unfold bind at 1. rewrite Hassign'.
    rewrite bind_update_desc, bind_get. proj. rewrite !desc_at_insert, !insert_insert_eq.
    cbn [Plugin.config Plugin.set_config config_value].
    unfold bind at 1. unfold set_prop at 1.
    destruct cfg0 as [| | b | n | s | c]; try (unfold throw; by destruct dd).
    unfold modify at 1. proj.
    rewrite bind_modify. proj.
    rewrite bind_update_desc. proj. rewrite !desc_at_insert, !insert_insert_eq.
    rewrite bind_modify. proj.
    rewrite bind_update_desc. proj. rewrite !desc_at_insert, !insert_insert_eq.
    rewrite bind_modify. proj. reflexivity.
Qed.

End PeboRegisterOutcome.

Section PeboRegistryProperties.
Import LagerPebo.
Variable camelCase : string → string.

(** [getConfig] throws nothing but a TypeError. *)
Lemma walk_throws objs part configParts e :
  walk objs part configParts = Throw e → e = TypeError.
Proof.
  revert part. induction configParts as [| k configParts IH]; intros part; cbn; [done |].
  destruct (decide (part = VUndefined)); [done |].
  destruct part; cbn; try apply IH; congruence.
Qed.

Lemma getConfig_throws st key e : getConfig key st = Throw e → e = TypeError.
Proof.
  destruct key as [key |]; cbn; [| done].
  destruct (shift_key (split "." key)) as [k configParts].
  destruct (config st); cbn; try apply walk_throws; congruence.
Qed.

(** A successful registration, taken apart. *)
Lemma registerPlugin_success_inv st plugin r :
  let dd := desc_at (descs st) plugin in
  let key := camelCase (default EmptyString (Plugin.name dd)) in
  (registerPlugin camelCase plugin st).1 = Normal r →
  ∃ c cfg o,
    config st = VRef c
    ∧ registerPlugin camelCase plugin st
      = (Normal (self st),
         mkState (self st) (VRef c) (plugins st ++ [plugin])
           (foldl (λ x '(extensionName, fn),
                     <[(default "undefined" (Plugin.name dd) ++ ":"
                        ++ extensionName)%string := fn]> x)
                  (extensions st) (default [] (Plugin.extensions dd)))
           (events st ++ default [] (Plugin.hooks dd))
           (<[plugin := Plugin.mk (Plugin.name dd) (Some (default [] (Plugin.hooks dd)))
                          (Some (default [] (Plugin.extensions dd))) cfg
                          (Some (self st)) (Plugin.getPath dd)]> (descs st))
           (<[c := <[key := config_value cfg]> (obj_at o c)]> o)).
Proof.
  intros dd key Hok.
  destruct (getConfig (Some key) st) as [v | e] eqn:Hget.
  - destruct (registerPlugin_outcome camelCase st plugin v Hget) as (cfg & o & _ & Hrun).
    fold dd key in Hrun. rewrite Hrun in Hok |- *.
    destruct (config st) as [| | b | n | s | c]; try done. by exists c, cfg, o.
  - by rewrite (registerPlugin_getConfig_throws camelCase st plugin e Hget) in Hok.
Qed.

(** X11. On an engine whose config is not an object ([undefined], [null],
    a boolean, a number or a string), [registerPlugin] of the Pebo-based
    engine throws a TypeError: reading the project's section does, or
    else the write of the section under the plugin's key. *)
Theorem registerPlugin_needs_object_config st plugin :
  (∀ c, config st ≠ VRef c) →
  (registerPlugin camelCase plugin st).1 = Throw TypeError.
Proof.
  intros Hc.
  destruct (getConfig (Some (camelCase (default EmptyString
              (Plugin.name (desc_at (descs st) plugin))))) st) as [v | e] eqn:Hget.
  - destruct (registerPlugin_outcome camelCase st plugin v Hget) as (cfg & o & _ & Hrun).
    rewrite Hrun. destruct (config st) as [| | b | n | s | c]; try done.
    by destruct (Hc c).
  - rewrite (registerPlugin_getConfig_throws camelCase st plugin e Hget). cbn.
    by rewrite (getConfig_throws _ _ _ Hget).
Qed.

(** A failed registration, taken apart. *)
Lemma registerPlugin_failure_inv st plugin e :
  let st' := (registerPlugin camelCase plugin st).2 in
  (registerPlugin camelCase plugin st).1 = Throw e →
  plugins st' = plugins st
  ∧ extensions st' = extensions st
  ∧ events st' = events st
  ∧ config st' = config st
  ∧ Plugin.lager (desc_at (descs st') plugin) = Some (self st).
Proof.
  intros st'. subst st'. intros Hthrow.
  destruct (getConfig (Some (camelCase (default EmptyString
              (Plugin.name (desc_at (descs st) plugin))))) st) as [v | e'] eqn:Hget.
  - destruct (registerPlugin_outcome camelCase st plugin v Hget) as (cfg & o & _ & Hrun).
    rewrite Hrun in Hthrow |- *.
    destruct (config st) as [| | b | n | s | c] eqn:Hc; cbn in Hthrow; try done.
    all: cbn [snd plugins extensions events config descs].
    all: by rewrite desc_at_insert.
  - rewrite (registerPlugin_getConfig_throws camelCase st plugin e' Hget) in Hthrow |- *.
    cbn [snd set_descs plugins extensions events config descs].
    by rewrite desc_at_insert.
Qed.

(** X12. A [registerPlugin] that throws registers nothing: the registry,
    the extensions, the listeners and the engine's config member are as
    before.  The descriptor, though, already holds the reference to the
    engine. *)
Theorem registerPlugin_failure_effects st plugin e :
  let st' := (registerPlugin camelCase plugin st).2 in
  (registerPlugin camelCase plugin st).1 = Throw e →
  plugins st' = plugins st
  ∧ extensions st' = extensions st
  ∧ events st' = events st
  ∧ config st' = config st
  ∧ Plugin.lager (desc_at (descs st') plugin) = Some (self st).
Proof. apply registerPlugin_failure_inv. Qed.

(** X13. A [registerPlugin] that succeeds returns the engine, appends the
    descriptor to the registry, and changes no name; the descriptor holds
    the engine and has its [hooks] and [extensions] defaulted to empty
    collections when they were absent; its hooks are handed on, in order,
    after the listeners already there. *)
Theorem registerPlugin_success_effects st plugin r :
  let dd := desc_at (descs st) plugin in
  let st' := (registerPlugin camelCase plugin st).2 in
  (registerPlugin camelCase plugin st).1 = Normal r →
  r = self st
  ∧ plugins st' = plugins st ++ [plugin]
  ∧ self st' = self st
  ∧ config st' = config st
  ∧ (∀ q, Plugin.name (desc_at (descs st') q) = Plugin.name (desc_at (descs st) q))
  ∧ Plugin.lager (desc_at (descs st') plugin) = Some (self st)
  ∧ Plugin.hooks (desc_at (descs st') plugin) = Some (default [] (Plugin.hooks dd))
  ∧ Plugin.extensions (desc_at (descs st') plugin) = Some (default [] (Plugin.extensions dd))
  ∧ events st' = events st ++ default [] (Plugin.hooks dd).
Proof.
  intros dd st'. subst st'. intros Hok.
  destruct (registerPlugin_success_inv st plugin r Hok) as (c & cfg & o & Hc & Hrun).
  rewrite Hrun in Hok |- *. cbn in Hok. injection Hok as <-.
  cbn [snd plugins self config descs events]. rewrite desc_at_insert.
  repeat split; try done.
  intros q. unfold desc_at at 1. destruct (decide (plugin = q)) as [<- | Hne].
  - by rewrite lookup_insert_eq.
  - by rewrite lookup_insert_ne.
Qed.

(** X14. After a successful [registerPlugin] whose key has no dot,
    [getConfig] of that key returns the descriptor's config as the
    registration left it, whatever the project had under the key: the
    same object, or [undefined] for a plugin without config and without a
    project section. *)
Theorem registerPlugin_publishes_config st plugin r :
  let key := camelCase (default EmptyString (Plugin.name (desc_at (descs st) plugin))) in
  let st' := (registerPlugin camelCase plugin st).2 in
  (registerPlugin camelCase plugin st).1 = Normal r →
  split "." key = [key] →
  getConfig (Some key) st'
  = Normal (config_value (Plugin.config (desc_at (descs st') plugin))).
Proof.
  intros key st'. subst st'. intros Hok Hsplit.
  destruct (registerPlugin_success_inv st plugin r Hok) as (c & cfg & o & Hc & Hrun).
  rewrite Hrun. cbn [snd]. rewrite (getConfig_top_level _ c) by done.
  cbn [objs descs]. fold key.
  rewrite obj_at_insert, lookup_insert_eq, desc_at_insert. by destruct cfg.
Qed.

End PeboRegistryProperties.

Section ExtensionTable.
Import LagerPebo.

Lemma string_app_inj (a b c : string) : (a ++ b)%string = (a ++ c)%string → b = c.
Proof. induction a as [| ch a IH]; cbn; [done |]. intros [= H]. by apply IH. Qed.

(** The table after the extensions of a plugin were written into it: a
    key none of them maps to is as before. *)
Lemma foldl_insert_other (g : string → string) (l : list (string * extension))
    (m : gmap string extension) key :
  (∀ e, e ∈ l.*1 → key ≠ g e) →
  foldl (λ x '(extensionName, fn), <[g extensionName := fn]> x) m l !! key = m !! key.
Proof.
  revert m. induction l as [| [e0 f0] l IH]; intros m Hother; cbn; [done |].
  rewrite IH by (intros e He; apply Hother; cbn; apply elem_of_cons; by right).
  apply lookup_insert_ne. intros Heq. apply (Hother e0); [| done].
  cbn. apply list_elem_of_here.
Qed.

(** With distinct names, each extension is found under its key. *)
Lemma foldl_insert_found (g : string → string) (l : list (string * extension))
    (m : gmap string extension) e (f : extension) :
  (∀ a b, g a = g b → a = b) →
  NoDup l.*1 → (e, f) ∈ l →
  foldl (λ x '(extensionName, fn), <[g extensionName := fn]> x) m l !! g e = Some f.
Proof.
  intros Hinj. revert m. induction l as [| [e0 f0] l IH]; intros m Hnodup Hin; cbn.
  { by apply elem_of_nil in Hin. }
  cbn in Hnodup. apply NoDup_cons in Hnodup as [Hfresh Hnodup].
  apply elem_of_cons in Hin as [[= -> ->] | Hin].
  - rewrite foldl_insert_other; [apply lookup_insert_eq |].
    intros e He Heq. apply Hinj in Heq. by subst e.
  - by apply IH.
Qed.

End ExtensionTable.

Section PeboExtensionProperties.
Import LagerPebo.
Variable camelCase : string → string.
Variable array_member : string → option extension.

Local Abbreviation call := (LagerPebo.call array_member).

(** X15. Registering a plugin makes each of its extensions callable under
    the key ["<name>:<extension>"]: after a successful [registerPlugin],
    [call] with that key applies the extension to the remaining arguments
    and returns what it returns, whatever was registered under the key
    before.  A plugin without name has its extensions under
    ["undefined:<extension>"]. *)
Theorem registerPlugin_then_call st plugin r exts extensionName (fn : extension) args :
  let dd := desc_at (descs st) plugin in
  let st' := (registerPlugin camelCase plugin st).2 in
  (registerPlugin camelCase plugin st).1 = Normal r →
  Plugin.extensions dd = Some exts →
  NoDup exts.*1 →
  (extensionName, fn) ∈ exts →
  call (VStr (default "undefined" (Plugin.name dd) ++ ":" ++ extensionName) :: args) st'
  = fn args.
Proof.
  intros dd st'. subst st'. intros Hok Hexts Hnodup Hin.
  destruct (registerPlugin_success_inv camelCase st plugin r Hok) as (c & cfg & o & Hc & Hrun).
  rewrite Hrun. cbn [snd]. apply call_registered. cbn [extensions].
  fold dd. rewrite Hexts. cbn [default].
  apply (foldl_insert_found
           (λ e, (default "undefined" (Plugin.name dd) ++ ":" ++ e)%string)); [| done..].
  intros a b Heq. apply string_app_inj in Heq. by apply (string_app_inj ":") in Heq.
Qed.

(** X16. A registration touches the extension table only at the keys of
    the registered plugin: [call] with any other key behaves after it as it
    did before. *)
Theorem registerPlugin_call_other st plugin key args :
  let dd := desc_at (descs st) plugin in
  let st' := (registerPlugin camelCase plugin st).2 in
  (∀ e, e ∈ (default [] (Plugin.extensions dd)).*1 →
        key ≠ (default "undefined" (Plugin.name dd) ++ ":" ++ e)%string) →
  call (VStr key :: args) st' = call (VStr key :: args) st.
Proof.
  intros dd st'. subst st'. intros Hother.
  assert (Hext : extensions (registerPlugin camelCase plugin st).2 !! key
                 = extensions st !! key).
  { destruct (registerPlugin camelCase plugin st).1 as [r | e] eqn:Hres.
    - destruct (registerPlugin_success_inv camelCase st plugin r Hres)
        as (c & cfg & o & Hc & Hrun).
      rewrite Hrun. cbn [snd extensions]. fold dd.
      by apply (foldl_insert_other
                  (λ e, (default "undefined" (Plugin.name dd) ++ ":" ++ e)%string)).
    - by destruct (registerPlugin_failure_inv camelCase st plugin e Hres)
        as (_ & -> & _). }
  unfold LagerPebo.call. cbn [shift to_string]. unfold extension in *. by rewrite Hext.
Qed.

(** X17. After a successful [registerPlugin], a name is registered exactly
    when it was registered before or is the name of the new descriptor. *)
Theorem isPluginRegistered_after_registerPlugin st plugin r name :
  let st' := (registerPlugin camelCase plugin st).2 in
  (registerPlugin camelCase plugin st).1 = Normal r →
  isPluginRegistered name st'
  = isPluginRegistered name st || name_is name (desc_at (descs st) plugin).
Proof.
  intros st'. subst st'. intros Hok.
  destruct (registerPlugin_success_inv camelCase st plugin r Hok)
    as (c & cfg & o & Hc & Hrun).
  assert (Hnames : ∀ q, Plugin.name (desc_at (descs (registerPlugin camelCase plugin st).2) q)
                        = Plugin.name (desc_at (descs st) q)).
  { intros q. rewrite Hrun. cbn [snd descs]. unfold desc_at at 1.
    destruct (decide (plugin = q)) as [<- | Hne].
    - by rewrite lookup_insert_eq.
    - by rewrite lookup_insert_ne. }
  unfold isPluginRegistered, find_plugin.
  rewrite (find_ext_in _ (λ p, name_is name (desc_at (descs st) p)))
    by (intros q; unfold name_is; by rewrite Hnames).
  rewrite Hrun. cbn [snd plugins].
  rewrite (find_app_one (λ p, name_is name (desc_at (descs st) p))).
  destruct (List.find _ (plugins st)); [done |]. cbn.
  by destruct (name_is name (desc_at (descs st) plugin)).
Qed.

End PeboExtensionProperties.

Section PeboLookupProperties.
Import LagerPebo.

(** X18. [getPlugin] and [isPluginRegistered] agree: [getPlugin] returns a
    registered descriptor with the name, the first one in the registry,
    exactly when [isPluginRegistered] is true, and otherwise throws the
    Error naming the plugin, no registered descriptor having that name. *)
Theorem getPlugin_isPluginRegistered st name :
  match getPlugin name st with
  | Normal p =>
      isPluginRegistered name st = true
      ∧ ∃ before after, plugins st = before ++ p :: after
          ∧ (∀ q, q ∈ before → Plugin.name (desc_at (descs st) q) ≠ Some name)
          ∧ Plugin.name (desc_at (descs st) p) = Some name
  | Throw e =>
      isPluginRegistered name st = false
      ∧ e = Error ("The plugin " ++ dquote ++ name ++ dquote
                   ++ " is not registered in the Lager instance")%string
      ∧ ∀ q, q ∈ plugins st → Plugin.name (desc_at (descs st) q) ≠ Some name
  end.
Proof.
  unfold getPlugin, isPluginRegistered, find_plugin.
  pose proof (find_first (λ p, name_is name (desc_at (descs st) p)) (plugins st)) as Hfind.
  destruct (List.find _ _) as [p |].
  - split; [done |]. destruct Hfind as (before & after & Hps & Hbefore & Hp).
    exists before, after. repeat split; [done | | by apply name_is_true].
    intros q Hq. by apply name_is_false, Hbefore.
  - repeat split. intros q Hq. by apply name_is_false, Hfind.
Qed.

End PeboLookupProperties.

Section PeboConfigMerge.
Import LagerPebo.
Variable camelCase : string → string.

(** What is in use: the engine's config, the config of every descriptor,
    and what a property of a stored object refers to. *)
Lemma in_use_config st c : config st = VRef c → c ∈ in_use st.
Proof.
  intros Hc. unfold in_use. rewrite Hc. cbn [ref_of].
  apply elem_of_union_l, elem_of_union_l, elem_of_union_r. by apply elem_of_singleton.
Qed.

Lemma in_use_descriptor st q d :
  Plugin.config (desc_at (descs st) q) = Some d → d ∈ in_use st.
Proof.
  intros Hd. unfold in_use. apply elem_of_union_l, elem_of_union_r.
  apply elem_of_map_img. exists q. rewrite lookup_omap.
  unfold desc_at in Hd. by destruct (descs st !! q).
Qed.

Lemma in_use_property st l k r :
  obj_at (objs st) l !! k = Some (VRef r) → r ∈ in_use st.
Proof.
  intros Hk. unfold in_use. apply elem_of_union_r.
  unfold obj_at in Hk. destruct (objs st !! l) as [o |] eqn:Hl; [| done].
  cbn in Hk. apply elem_of_union_list.
  exists (map_img (omap ref_of o)). split.
  - apply list_elem_of_fmap. exists o. split; [done |].
    apply list_elem_of_fmap. exists (l, o). split; [done |].
    by apply elem_of_map_to_list.
  - apply elem_of_map_img. exists k. by rewrite lookup_omap, Hk.
Qed.

Lemma in_use_allocated st l : l ∈ dom (objs st) → l ∈ in_use st.
Proof.
  intros Hl. unfold in_use. by apply elem_of_union_l, elem_of_union_l, elem_of_union_l.
Qed.

(** X20. A plugin without config whose key holds an object in the project
    config gets a new object as its config: an object at a location that
    was not in use (nothing is stored there, and neither the engine, nor
    a descriptor, nor a property of a stored object refers to it), with a
    copy of the properties of the project's object, and it is what
    [getConfig] of the key returns from then on.  The project's own object
    is left as it was. *)
Theorem registerPlugin_copies_section st plugin c s :
  let dd := desc_at (descs st) plugin in
  let key := camelCase (default EmptyString (Plugin.name dd)) in
  let st' := (registerPlugin camelCase plugin st).2 in
  let t := fresh (in_use st) in
  split "." key = [key] →
  config st = VRef c →
  obj_at (objs st) c !! key = Some (VRef s) →
  Plugin.config dd = None →
  Plugin.config (desc_at (descs st') plugin) = Some t
  ∧ (t ∉ in_use st)
  ∧ ((t ∉ dom (objs st)) ∧ t ≠ c ∧ t ≠ s
     ∧ ∀ q, Plugin.config (desc_at (descs st) q) ≠ Some t)
  ∧ obj_at (objs st') t = obj_at (objs st) s
  ∧ getConfig (Some key) st' = Normal (VRef t)
  ∧ (s ≠ c → obj_at (objs st') s = obj_at (objs st) s).
Proof.
  intros dd key st' t. subst st'. intros Hsplit Hc Hs Hnone.
  assert (Hfresh : t ∉ in_use st) by apply is_fresh.
  assert (Htd : t ∉ dom (objs st)) by (intros ?; by apply Hfresh, in_use_allocated).
  assert (Htc : t ≠ c) by (intros ->; by apply Hfresh, in_use_config).
  assert (Hts : t ≠ s) by (intros ->; by eapply Hfresh, in_use_property).
  assert (Htq : ∀ q, Plugin.config (desc_at (descs st) q) ≠ Some t).
  { intros q Hq. by eapply Hfresh, in_use_descriptor. }
  assert (Hget : getConfig (Some key) st = Normal (VRef s)).
  { by rewrite (getConfig_top_level _ c), Hs. }
  destruct (registerPlugin_outcome camelCase st plugin (VRef s) Hget)
    as (cfg & o & [(? & _) | (_ & t' & -> & Hassign)] & Hrun); [done |].
  fold dd in Hassign. rewrite Hnone in Hassign. unfold assign in Hassign.
  cbn [truthy source_props] in Hassign. fold t in Hassign.
  injection Hassign as <- Ho. unfold set_objs in Ho. cbn [objs] in Ho.
  destruct st as [this cfg0 ps xs evs ds os]. cbn [objs config] in *.
  subst o cfg0.
  rewrite Hrun. cbn [snd descs objs]. rewrite desc_at_insert. cbn [Plugin.config].
  assert (Hcopy : obj_at (<[t:=∅]> os) s ∪ obj_at (<[t:=∅]> os) t = obj_at os s).
  { by rewrite obj_at_insert, (right_id_L ∅ (∪)), obj_at_insert_ne. }
  split; [done |]. split; [done |]. split; [done |]. split; [| split].
  - rewrite obj_at_insert_ne by done. by rewrite obj_at_insert.
  - rewrite (getConfig_top_level _ c) by done. cbn [objs config_value].
    by rewrite obj_at_insert, lookup_insert_eq.
  - intros Hsc. by rewrite !obj_at_insert_ne.
Qed.

End PeboConfigMerge.

Section PeboRegistryInstances.
Import LagerPebo Examples MoreExamples.

Lemma unconfiguredEngine_config : ∀ c, config unconfiguredEngine ≠ VRef c.
Proof. discriminate. Qed.

Lemma registerPlugin_needs_object_config_witness :
  (∀ c, config unconfiguredEngine ≠ VRef c)
  ∧ (registerPlugin camelCaseWord 1 unconfiguredEngine).1 = Throw TypeError.
Proof.
  split; [exact unconfiguredEngine_config |].
  exact (registerPlugin_needs_object_config camelCaseWord unconfiguredEngine 1
           unconfiguredEngine_config).
Defined.

Lemma registerPlugin_failure_effects_witness :
  (registerPlugin camelCaseWord 1 unconfiguredEngine).1 = Throw TypeError
  ∧ (plugins (registerPlugin camelCaseWord 1 unconfiguredEngine).2 = []
     ∧ extensions (registerPlugin camelCaseWord 1 unconfiguredEngine).2 = ∅
     ∧ events (registerPlugin camelCaseWord 1 unconfiguredEngine).2 = []
     ∧ config (registerPlugin camelCaseWord 1 unconfiguredEngine).2 = VUndefined
     ∧ Plugin.lager (desc_at (descs (registerPlugin camelCaseWord 1 unconfiguredEngine).2) 1)
       = Some 0).
Proof.
  split; [reflexivity |].
  exact (registerPlugin_failure_effects camelCaseWord unconfiguredEngine 1 TypeError eq_refl).
Defined.

Lemma registerPlugin_success_effects_witness :
  (registerPlugin camelCaseWord 1 projectEngine).1 = Normal 0
  ∧ (0 = 0
     ∧ plugins (registerPlugin camelCaseWord 1 projectEngine).2 = [] ++ [1]
     ∧ self (registerPlugin camelCaseWord 1 projectEngine).2 = 0
     ∧ config (registerPlugin camelCaseWord 1 projectEngine).2 = VRef 10
     ∧ (∀ q, Plugin.name (desc_at (descs (registerPlugin camelCaseWord 1 projectEngine).2) q)
             = Plugin.name (desc_at (descs projectEngine) q))
     ∧ Plugin.lager (desc_at (descs (registerPlugin camelCaseWord 1 projectEngine).2) 1)
       = Some 0
     ∧ Plugin.hooks (desc_at (descs (registerPlugin camelCaseWord 1 projectEngine).2) 1)
       = Some []
     ∧ Plugin.extensions (desc_at (descs (registerPlugin camelCaseWord 1 projectEngine).2) 1)
       = Some []
     ∧ events (registerPlugin camelCaseWord 1 projectEngine).2 = [] ++ []).
Proof.
  split; [reflexivity |].
  exact (registerPlugin_success_effects camelCaseWord projectEngine 1 0 eq_refl).
Defined.

Lemma registerPlugin_publishes_config_witness :
  (registerPlugin camelCaseWord 1 rdsEngine).1 = Normal 0
  ∧ split "." "rds" = ["rds"]
  ∧ getConfig (Some "rds") (registerPlugin camelCaseWord 1 rdsEngine).2 = Normal (VRef 12).
Proof.
  split; [reflexivity |]. split; [reflexivity |].
  exact (registerPlugin_publishes_config camelCaseWord rdsEngine 1 0 eq_refl eq_refl).
Defined.

Lemma double_is_only_extension : NoDup [("double", double)].*1.
Proof. apply NoDup_singleton. Qed.

Lemma registerPlugin_then_call_witness :
  (registerPlugin camelCaseWord 1 mathEngine).1 = Normal 0
  ∧ Plugin.extensions (desc_at (descs mathEngine) 1) = Some [("double", double)]
  ∧ NoDup [("double", double)].*1
  ∧ ("double", double) ∈ [("double", double)]
  ∧ call arrayMethods [VStr "math:double"; VNum 5]
         (registerPlugin camelCaseWord 1 mathEngine).2
    = Normal (Plain (VNum 10)).
Proof.
  split; [reflexivity |]. split; [reflexivity |].
  split; [exact double_is_only_extension |]. split; [apply list_elem_of_here |].
  exact (registerPlugin_then_call camelCaseWord arrayMethods mathEngine 1 0
           [("double", double)]
           "double" double [VNum 5] eq_refl eq_refl double_is_only_extension
           (list_elem_of_here _ _)).
Defined.

Lemma other_key_is_not_math :
  ∀ e, e ∈ (default [] (Plugin.extensions (desc_at (descs mathEngine) 1))).*1 →
       "iam:double" ≠ (default "undefined" (Plugin.name (desc_at (descs mathEngine) 1))
                       ++ ":" ++ e)%string.
Proof. intros e He. apply list_elem_of_singleton in He. by subst e. Qed.

Lemma registerPlugin_call_other_witness :
  (∀ e, e ∈ (default [] (Plugin.extensions (desc_at (descs mathEngine) 1))).*1 →
        "iam:double" ≠ (default "undefined" (Plugin.name (desc_at (descs mathEngine) 1))
                        ++ ":" ++ e)%string)
  ∧ call arrayMethods [VStr "iam:double"; VNum 5]
         (registerPlugin camelCaseWord 1 mathEngine).2
    = call arrayMethods [VStr "iam:double"; VNum 5] mathEngine.
Proof.
  split; [exact other_key_is_not_math |].
  exact (registerPlugin_call_other camelCaseWord arrayMethods mathEngine 1 "iam:double"
           [VNum 5]
           other_key_is_not_math).
Defined.

Lemma isPluginRegistered_after_registerPlugin_witness :
  (registerPlugin camelCaseWord 1 projectEngine).1 = Normal 0
  ∧ isPluginRegistered "iam" (registerPlugin camelCaseWord 1 projectEngine).2
    = isPluginRegistered "iam" projectEngine
      || name_is "iam" (desc_at (descs projectEngine) 1).
Proof.
  split; [reflexivity |].
  exact (isPluginRegistered_after_registerPlugin camelCaseWord projectEngine 1 0 "iam"
           eq_refl).
Defined.

Lemma registerPlugin_copies_section_witness :
  split "." "iam" = ["iam"]
  ∧ config bareIamEngine = VRef 10
  ∧ obj_at (objs bareIamEngine) 10 !! "iam" = Some (VRef 11)
  ∧ Plugin.config (desc_at (descs bareIamEngine) 1) = None
  ∧ (Plugin.config (desc_at (descs (registerPlugin camelCaseWord 1 bareIamEngine).2) 1)
     = Some (fresh (in_use bareIamEngine))
     ∧ (fresh (in_use bareIamEngine) ∉ in_use bareIamEngine)
     ∧ ((fresh (in_use bareIamEngine) ∉ dom (objs bareIamEngine))
        ∧ fresh (in_use bareIamEngine) ≠ 10
        ∧ fresh (in_use bareIamEngine) ≠ 11
        ∧ ∀ q, Plugin.config (desc_at (descs bareIamEngine) q)
               ≠ Some (fresh (in_use bareIamEngine)))
     ∧ obj_at (objs (registerPlugin camelCaseWord 1 bareIamEngine).2)
              (fresh (in_use bareIamEngine))
       = obj_at (objs bareIamEngine) 11
     ∧ getConfig (Some "iam") (registerPlugin camelCaseWord 1 bareIamEngine).2
       = Normal (VRef (fresh (in_use bareIamEngine)))
     ∧ (11 ≠ 10 → obj_at (objs (registerPlugin camelCaseWord 1 bareIamEngine).2) 11
                  = obj_at (objs bareIamEngine) 11)).
Proof.
  split; [reflexivity |]. split; [reflexivity |].
  split; [reflexivity |]. split; [reflexivity |].
  exact (registerPlugin_copies_section camelCaseWord bareIamEngine 1 10 11
           eq_refl eq_refl eq_refl eq_refl).
Defined.

End PeboRegistryInstances.

(** * Further properties of [getConfig] and [call] *)

Section ConfigPathProperties.
Import LagerPebo ConfigPath.

(** Splitting undoes joining with dots. *)
Lemma split_app_dot k s :
  segment k → split "." (k ++ String "." s) = k :: split "." s.
Proof.
  unfold segment. induction k as [| ch k IH]; [done |].
  change (String ch k ++ String "." s)%string with (String ch (k ++ String "." s)).
  simpl split. destruct (Ascii.eqb ch ".") eqn:Hch; [done |].
  destruct (split "." k) as [| w ws] eqn:Hk.
  { destruct (split_cons "." k) as (w & ws & Hw). congruence. }
  intros [= -> ->]. by rewrite IH.
Qed.

Lemma split_concat k ks :
  Forall segment (k :: ks) → split "." (String.concat "." (k :: ks)) = k :: ks.
Proof.
  revert k. induction ks as [| k' ks IH]; intros k Hseg.
  - cbn. by apply Forall_inv in Hseg.
  - apply Forall_cons in Hseg as [Hk Hseg].
    change (String.concat "." (k :: k' :: ks))
      with (k ++ String "." (String.concat "." (k' :: ks)))%string.
    by rewrite split_app_dot, IH.
Qed.

(** A dotted key is read segment by segment: the first segment off the
    engine's config, the others by the loop. *)
Lemma getConfig_concat st k ks :
  Forall segment (k :: ks) →
  getConfig (Some (String.concat "." (k :: ks))) st
  = match get_prop (objs st) (config st) k with
    | Throw e => Throw e
    | Normal part => walk (objs st) part ks
    end.
Proof. intros Hseg. unfold getConfig. by rewrite split_concat. Qed.

Lemma walk_lookup_path objs part ks1 ks2 v :
  lookup_path objs part ks1 = Some v →
  walk objs part (ks1 ++ ks2) = walk objs v ks2.
Proof.
  revert part. induction ks1 as [| k ks1 IH]; intros part; cbn; [by intros [= ->] |].
  destruct part as [| | b | n | s | l]; try done.
  destruct (obj_at objs l !! k) as [v' |] eqn:Hk; [| done].
  intros Hpath. destruct (decide (VRef l = VUndefined)); [done |]. cbn.
  rewrite Hk. cbn. by apply IH.
Qed.

(** Once a path led to a value other than [undefined], the rest of the
    key is walked from that value. *)
Lemma getConfig_from_path st ks1 k ks2 v :
  Forall segment (ks1 ++ k :: ks2) →
  lookup_path (objs st) (config st) ks1 = Some v →
  v ≠ VUndefined →
  getConfig (Some (String.concat "." (ks1 ++ k :: ks2))) st
  = walk (objs st) v (k :: ks2).
Proof.
  intros Hseg Hpath Hv. destruct ks1 as [| k1 ks1].
  - cbn in Hpath. injection Hpath as <-.
    cbn [app]. rewrite getConfig_concat by done. cbn [walk].
    destruct (decide (config st = VUndefined)); [done |].
    by destruct (get_prop (objs st) (config st) k).
  - cbn [app]. rewrite getConfig_concat by done.
    cbn in Hpath. destruct (config st) as [| | b | n | s | l]; try done.
    destruct (obj_at (objs st) l !! k1) as [v1 |] eqn:Hk1; [| done].
    cbn [get_prop]. rewrite Hk1. cbn [default]. by apply walk_lookup_path.
Qed.

(** X21. A dotted key made of segments [k.k1...kn] is answered by the value
    found along that path through the config objects: when every step goes
    through an object that has the property, [getConfig] returns the value
    at the end of the path. *)
Theorem getConfig_follows_path st k ks v :
  Forall segment (k :: ks) →
  lookup_path (objs st) (config st) (k :: ks) = Some v →
  getConfig (Some (String.concat "." (k :: ks))) st = Normal v.
Proof.
  intros Hseg Hpath. rewrite getConfig_concat by done. cbn in Hpath.
  destruct (config st) as [| | b | n | s | l]; try done.
  destruct (obj_at (objs st) l !! k) as [v1 |] eqn:Hk; [| done].
  cbn. rewrite Hk. cbn.
  rewrite <- (app_nil_r ks), (walk_lookup_path _ _ _ [] v Hpath). done.
Qed.

(** X23. When the path reaches [null] and a segment is left, [getConfig]
    throws a TypeError: the loop guards against [undefined] only. *)
Theorem getConfig_null_on_path st ks1 k ks2 :
  Forall segment (ks1 ++ k :: ks2) →
  lookup_path (objs st) (config st) ks1 = Some VNull →
  getConfig (Some (String.concat "." (ks1 ++ k :: ks2))) st = Throw TypeError.
Proof.
  intros Hseg Hpath.
  by rewrite (getConfig_from_path st ks1 k ks2 VNull Hseg Hpath).
Qed.

End ConfigPathProperties.

Section CallProperties.
Import LagerPebo.
Variable array_member : string → option extension.

Local Abbreviation call := (LagerPebo.call array_member).

(** X25. With no extension registered under the key and nothing truthy
    inherited by the extensions array under it, [call] resolves with its
    last argument and ignores every argument before it; without further
    argument it resolves with [undefined]. *)
Theorem call_passthrough_last st key args :
  extensions st !! key = None →
  array_member key = None →
  call (VStr key :: args) st = Normal (Future (Resolved (List.last args VUndefined))).
Proof. apply call_unregistered. Qed.

End CallProperties.

Section ConfigPathInstances.
Import LagerPebo ConfigPath Examples MoreExamples.

Lemma iam_region_segments : Forall segment ["iam"; "region"].
Proof. by repeat constructor. Qed.

Lemma getConfig_follows_path_witness :
  Forall segment ["iam"; "region"]
  ∧ lookup_path (objs regionEngine) (config regionEngine) ["iam"; "region"]
    = Some (VStr "us-east-1")
  ∧ getConfig (Some "iam.region") regionEngine = Normal (VStr "us-east-1").
Proof.
  split; [exact iam_region_segments |]. split; [reflexivity |].
  exact (getConfig_follows_path regionEngine "iam" ["region"] (VStr "us-east-1")
           iam_region_segments eq_refl).
Defined.

Lemma a_b_segments : Forall segment (["a"] ++ "b" :: []).
Proof. by repeat constructor. Qed.

Lemma getConfig_null_on_path_witness :
  Forall segment (["a"] ++ "b" :: [])
  ∧ lookup_path (objs nullConfigEngine) (config nullConfigEngine) ["a"] = Some VNull
  ∧ getConfig (Some "a.b") nullConfigEngine = Throw TypeError.
Proof.
  split; [exact a_b_segments |]. split; [reflexivity |].
  exact (getConfig_null_on_path nullConfigEngine ["a"] "b" [] a_b_segments eq_refl).
Defined.

Lemma call_passthrough_last_witness :
  extensions mathEngine !! "math:double" = None
  ∧ arrayMethods "math:double" = None
  ∧ call arrayMethods (VStr "math:double" :: [VNum 1; VNum 2; VNum 3]) mathEngine
    = Normal (Future (Resolved (List.last [VNum 1; VNum 2; VNum 3] VUndefined))).
Proof.
  split; [reflexivity |]. split; [reflexivity |].
  exact (call_passthrough_last arrayMethods mathEngine "math:double"
           [VNum 1; VNum 2; VNum 3] eq_refl eq_refl).
Defined.

End ConfigPathInstances.

(** * The print buffer of the command line *)

Section IcliProperties.
Import Icli.

Lemma string_app_assoc (a b c : string) : ((a ++ b) ++ c)%string = (a ++ (b ++ c))%string.
Proof.
  induction a as [| ch a IH]; [done |].
  change (String ch ((a ++ b) ++ c) = String ch (a ++ (b ++ c)))%string. by rewrite IH.
Qed.

Lemma string_app_nil_r (a : string) : (a ++ EmptyString)%string = a.
Proof.
  induction a as [| ch a IH]; [done |].
  change (String ch (a ++ EmptyString) = String ch a)%string. by rewrite IH.
Qed.

(** The text the catching closure takes from a run of calls: the first
    argument of each, as a string. *)
Lemma prints_catching calls st execOriginal :
  print st = Catching execOriginal →
  print (prints calls st) = Catching execOriginal
  ∧ catched (prints calls st)
    = (catched st
       ++ String.concat EmptyString ((λ a, to_string (hd VUndefined a)) <$> calls))%string
  ∧ console (prints calls st)
    = console st ++ (if truthy execOriginal then calls else []).
Proof.
  revert st. induction calls as [| a calls IH]; intros st Hprint.
  { cbn. rewrite string_app_nil_r. split; [done |]. split; [done |].
    destruct (truthy execOriginal); by rewrite app_nil_r. }
  unfold prints in *. cbn [foldl].
  destruct (IH (call_print a st)) as (Hp & Hc & Hl).
  { unfold call_print. rewrite Hprint. by destruct (truthy execOriginal). }
  rewrite Hp, Hc, Hl. split; [done |].
  unfold call_print. rewrite Hprint. split.
  - assert (Hconcat : ∀ x l, String.concat EmptyString (x :: l)
                             = (x ++ String.concat EmptyString l)%string).
    { intros x [| y l]; cbn; [by rewrite string_app_nil_r | done]. }
    rewrite fmap_cons, Hconcat.
    destruct (truthy execOriginal); cbn [catched default_print]; apply string_app_assoc.
  - destruct (truthy execOriginal); cbn [console default_print]; [| done].
    by rewrite <- app_assoc.
Qed.

Lemma prints_default calls st :
  print st = Print →
  prints calls st = mkState Print (catched st) (console st ++ calls).
Proof.
  revert st. induction calls as [| a calls IH]; intros st Hprint.
  { cbn. rewrite app_nil_r. by destruct st; cbn in *; subst. }
  unfold prints in *. cbn [foldl]. rewrite IH.
  - unfold call_print. rewrite Hprint. cbn. by rewrite <- app_assoc.
  - unfold call_print. by rewrite Hprint.
Qed.

(** X26. A capture: between [catchPrintStart] and [catchPrintStop],
    [catchPrintStop] returns the first arguments of the [icli.print] calls
    made in between, converted to strings and concatenated in call order (a
    call without argument contributes ["undefined"], further arguments are
    not captured), when those first arguments are primitive values and
    the numbers among them safe integers.  The console receives those
    calls, with all their arguments, only when [execOriginal] is truthy.
    Whatever was captured before the start is discarded, and afterwards
    [icli.print] is the default print again. *)
Theorem catchPrint_session st execOriginal calls :
  let st' := prints calls (catchPrintStart execOriginal st) in
  Forall (λ a, printable (hd VUndefined a)) calls →
  (catchPrintStop st').1
  = String.concat EmptyString ((λ a, to_string (hd VUndefined a)) <$> calls)
  ∧ console (catchPrintStop st').2
    = console st ++ (if truthy execOriginal then calls else [])
  ∧ print (catchPrintStop st').2 = Print.
Proof.
  intros st'. subst st'. intros _.
  destruct (prints_catching calls (catchPrintStart execOriginal st) execOriginal eq_refl)
    as (_ & Hc & Hl).
  unfold catchPrintStop. cbn [fst snd console print]. by rewrite Hc, Hl.
Qed.

(** X27. Outside a capture nothing reaches the buffer: after
    [catchPrintStop], any calls of [icli.print] go to the console with
    their arguments, and another [catchPrintStop] returns the same string
    as the first. *)
Theorem catchPrintStop_again st calls :
  let stopped := (catchPrintStop st).2 in
  console (prints calls stopped) = console st ++ calls
  ∧ (catchPrintStop (prints calls stopped)).1 = (catchPrintStop st).1.
Proof.
  intros stopped. subst stopped. by rewrite prints_default.
Qed.

End IcliProperties.

Section IcliInstances.
Import Icli.

Lemma captured_calls_printable :
  Forall (λ a, printable (hd VUndefined a)) [[VStr "a"; VNum 1]; []; [VNum 42]].
Proof. repeat constructor; cbn; lia. Qed.

Lemma catchPrint_session_witness :
  Forall (λ a, printable (hd VUndefined a)) [[VStr "a"; VNum 1]; []; [VNum 42]]
  ∧ ((catchPrintStop
        (prints [[VStr "a"; VNum 1]; []; [VNum 42]] (catchPrintStart (VBool false) loaded))).1
     = String.concat EmptyString
         ((λ a, to_string (hd VUndefined a)) <$> [[VStr "a"; VNum 1]; []; [VNum 42]])
     ∧ console (catchPrintStop
                  (prints [[VStr "a"; VNum 1]; []; [VNum 42]]
                          (catchPrintStart (VBool false) loaded))).2
       = console loaded
         ++ (if truthy (VBool false) then [[VStr "a"; VNum 1]; []; [VNum 42]] else [])
     ∧ print (catchPrintStop
                (prints [[VStr "a"; VNum 1]; []; [VNum 42]]
                        (catchPrintStart (VBool false) loaded))).2 = Print).
Proof.
  split; [exact captured_calls_printable |].
  exact (catchPrint_session loaded (VBool false) [[VStr "a"; VNum 1]; []; [VNum 42]]
           captured_calls_printable).
Defined.

(** The capture of the last lemma, evaluated. *)
Lemma catchPrint_session_example :
  (catchPrintStop
     (prints [[VStr "a"; VNum 1]; []; [VNum 42]] (catchPrintStart (VBool false) loaded))).1
  = "aundefined42".
Proof. by vm_compute. Qed.

End IcliInstances.

(** * Project initialisation *)

Section InitProperties.
Import LagerPeboInit LagerPebo.
Variable camelCase : string → string.
Variable R : Type.
Variable fire : string → list value → state → completion R * state.
Variable resolvable : string → bool.
Variable require : string → loc.
Variable path_join : list string → string.
Variable cwd : string.

Local Abbreviation locate := (LagerPeboInit.locate resolvable path_join cwd).
Local Abbreviation forEach_plugin :=
  (LagerPeboInit.forEach_plugin camelCase resolvable require path_join cwd).
Local Abbreviation init :=
  (LagerPeboInit.init camelCase R fire resolvable require path_join cwd).

(** Identifiers that are not found only add their warnings. *)
Lemma forEach_plugin_none identifiers st log :
  (∀ id, id ∈ identifiers → locate id = None) →
  forEach_plugin identifiers st log = (Normal tt, st, log ++ (not_found <$> identifiers)).
Proof.
  revert log. induction identifiers as [| id ids IH]; intros log Hnone; cbn.
  { by rewrite app_nil_r. }
  rewrite (Hnone id) by apply list_elem_of_here.
  rewrite IH by (intros id' Hid; apply Hnone; by apply list_elem_of_further).
  by rewrite <- app_assoc.
Qed.

(** Without an object as config, every key makes [getConfig] throw. *)
Lemma getConfig_without_config st key :
  config st = VUndefined ∨ config st = VNull →
  getConfig (Some key) st = Throw TypeError.
Proof.
  intros Hc. unfold getConfig. destruct (split_cons "." key) as (k & ks & ->). cbn.
  by destruct Hc as [-> | ->].
Qed.

(** When every registration returns, the loop is the fold of
    [registerPlugin] over the modules that are found. *)
Lemma forEach_plugin_fold identifiers st log :
  let modules := require <$> omap locate identifiers in
  let register := λ s p, (registerPlugin camelCase p s).2 in
  (∀ id path, id ∈ identifiers → locate id = Some path → path ≠ EmptyString) →
  (∀ k p, modules !! k = Some p →
          ∃ r, (registerPlugin camelCase p (foldl register st (take k modules))).1
               = Normal r) →
  forEach_plugin identifiers st log
  = (Normal tt, foldl register st modules,
     log ++ (not_found <$> filter (λ id, locate id = None) identifiers)).
Proof.
  intros modules register. subst modules.
  revert st log. induction identifiers as [| id ids IH]; intros st log Hpath Hok.
  { cbn. by rewrite app_nil_r. }
  cbn [LagerPeboInit.forEach_plugin omap list_omap].
  assert (Hrest : ∀ id' path, id' ∈ ids → locate id' = Some path → path ≠ EmptyString).
  { intros id' path Hid. apply Hpath. by apply list_elem_of_further. }
  destruct (locate id) as [path |] eqn:Hloc.
  - rewrite filter_cons_False by (cbn; congruence).
    assert (Hne : path ≠ EmptyString) by (by apply (Hpath id); [apply list_elem_of_here |]).
    apply String.eqb_neq in Hne. rewrite Hne.
    cbn [omap list_omap] in Hok. rewrite Hloc in Hok. cbn [fmap list_fmap] in Hok.
    destruct (Hok 0 (require path) eq_refl) as [r Hr]. cbn [take foldl] in Hr.
    destruct (registerPlugin camelCase (require path) st) as [res st'] eqn:Hrun.
    cbn [fst] in Hr. subst res.
    rewrite IH; [| done |].
    + cbn [fmap list_fmap foldl]. unfold register at 3. by rewrite Hrun.
    + intros k p Hk. specialize (Hok (S k) p Hk). cbn [take foldl] in Hok.
      unfold register at 2 in Hok. by rewrite Hrun in Hok.
  - rewrite filter_cons_True by (cbn; congruence). rewrite fmap_cons.
    cbn [omap list_omap] in Hok. rewrite Hloc in Hok.
    rewrite IH by done. by rewrite <- app_assoc.
Qed.

(** A run of registrations that all return appends the descriptors to the
    registry, in order. *)
Lemma registerPlugin_fold_plugins modules st :
  let register := λ s p, (registerPlugin camelCase p s).2 in
  (∀ k p, modules !! k = Some p →
          ∃ r, (registerPlugin camelCase p (foldl register st (take k modules))).1
               = Normal r) →
  plugins (foldl register st modules) = plugins st ++ modules.
Proof.
  intros register. revert st. induction modules as [| p ms IH]; intros st Hok.
  { cbn. by rewrite app_nil_r. }
  cbn [foldl]. rewrite IH.
  - destruct (Hok 0 p eq_refl) as [r Hr]. cbn [take foldl] in Hr.
    destruct (registerPlugin_success_inv camelCase st p r Hr) as (c & cfg & o & _ & Hrun).
    unfold register at 1. rewrite Hrun. cbn [snd plugins]. by rewrite <- app_assoc.
  - intros k q Hk. apply (Hok (S k) q Hk).
Qed.

(** X28. When none of the plugin identifiers of the project file is found
    by the module system (or the file lists none), [init] registers
    nothing: it sets the engine's config to the file's [config], warns once
    for each identifier, in order, and returns what firing ["afterInit"]
    returns.  The [plugins] member of its argument is set to the list it
    went through. *)
Theorem init_nothing_found project st :
  let identifiers := default [] (LagerPeboInit.plugins project) in
  (∀ id, id ∈ identifiers → locate id = None) →
  init project st
  = let '(r, st') := fire "afterInit" [] (set_config (LagerPeboInit.config project) st) in
    mkOutcome r st' (not_found <$> identifiers)
              (mkProject (LagerPeboInit.config project) (Some identifiers)).
Proof.
  intros identifiers Hnone. unfold LagerPeboInit.init. fold identifiers.
  by rewrite forEach_plugin_none.
Qed.

(** X29. When the project file has no [config] (it is [undefined] or
    [null]) and a module is found for one of its plugins, [init] throws a
    TypeError at the registration of the first one found: no plugin is
    registered, ["afterInit"] is not fired, and the warnings are those of
    the identifiers before it. *)
Theorem init_without_config_throws project st before id path after :
  LagerPeboInit.config project = VUndefined ∨ LagerPeboInit.config project = VNull →
  default [] (LagerPeboInit.plugins project) = before ++ id :: after →
  (∀ b, b ∈ before → locate b = None) →
  locate id = Some path →
  path ≠ EmptyString →
  result (init project st) = Throw TypeError
  ∧ plugins (engine (init project st)) = plugins st
  ∧ warnings (init project st) = not_found <$> before.
Proof.
  intros Hc Hids Hbefore Hloc Hne. unfold LagerPeboInit.init. rewrite Hids.
  assert (Hrun : ∀ st0 log, config st0 = LagerPeboInit.config project →
            forEach_plugin (before ++ id :: after) st0 log
            = (Throw TypeError,
               set_descs (<[require path :=
                              Plugin.set_lager (Some (self st0))
                                (desc_at (descs st0) (require path))]> (descs st0)) st0,
               log ++ (not_found <$> before))).
  { intros st0. clear Hids. induction before as [| b before IH]; intros log Hc0.
    - cbn [LagerPeboInit.forEach_plugin app]. rewrite Hloc.
      apply String.eqb_neq in Hne. rewrite Hne.
      rewrite registerPlugin_getConfig_throws with (e := TypeError).
      + cbn [fmap list_fmap]. by rewrite app_nil_r.
      + apply getConfig_without_config. by rewrite Hc0.
    - cbn [LagerPeboInit.forEach_plugin app]. rewrite (Hbefore b) by apply list_elem_of_here.
      rewrite IH; [by rewrite fmap_cons, <- app_assoc | | done].
      intros b' Hb'. apply Hbefore. by apply list_elem_of_further. }
  by rewrite Hrun.
Qed.

(** X30. When every registration returns, [init] is the run of
    [registerPlugin] over the modules of the identifiers that are found, in
    the order of the file and starting from the engine with the file's
    [config], followed by the firing of ["afterInit"] on the engine the
    registrations leave: [init] returns what that firing returns, the
    registry has the modules appended in order, and the warnings are those
    of the identifiers that were not found. *)
Theorem init_registers_found project st :
  let identifiers := default [] (LagerPeboInit.plugins project) in
  let modules := require <$> omap locate identifiers in
  let register := λ s p, (registerPlugin camelCase p s).2 in
  let st0 := set_config (LagerPeboInit.config project) st in
  (∀ id path, id ∈ identifiers → locate id = Some path → path ≠ EmptyString) →
  (∀ k p, modules !! k = Some p →
          ∃ r, (registerPlugin camelCase p (foldl register st0 (take k modules))).1
               = Normal r) →
  init project st
  = (let '(r, st2) := fire "afterInit" [] (foldl register st0 modules) in
     mkOutcome r st2 (not_found <$> filter (λ id, locate id = None) identifiers)
               (mkProject (LagerPeboInit.config project) (Some identifiers)))
  ∧ plugins (foldl register st0 modules) = plugins st ++ modules.
Proof.
  intros identifiers modules register st0 Hpath Hok. split.
  - unfold LagerPeboInit.init. fold identifiers st0.
    by rewrite (forEach_plugin_fold identifiers st0 [] Hpath Hok).
  - exact (registerPlugin_fold_plugins modules st0 Hok).
Qed.

End InitProperties.

Section InitInstances.
Import LagerPeboInit LagerPebo Examples MoreExamples.

Lemma noModule_locates_nothing :
  ∀ id, id ∈ default [] (LagerPeboInit.plugins projectFile) →
        locate noModule (String.concat "/") "/project" id = None.
Proof. done. Qed.

Lemma init_nothing_found_witness :
  (∀ id, id ∈ default [] (LagerPeboInit.plugins projectFile) →
         locate noModule (String.concat "/") "/project" id = None)
  ∧ init dropDots _ idleFire noModule moduleAt1 (String.concat "/") "/project"
         projectFile newProjectEngine
    = mkOutcome (Normal (Resolved [])) (set_config (VRef 10) newProjectEngine)
                [not_found "lager-iam"; not_found "lager-s3"] projectFile.
Proof.
  split; [exact noModule_locates_nothing |].
  exact (init_nothing_found dropDots _ idleFire noModule moduleAt1 (String.concat "/")
           "/project" projectFile newProjectEngine noModule_locates_nothing).
Defined.

Lemma s3_is_not_found :
  ∀ b, b ∈ ["lager-s3"] → locate onlyIam (String.concat "/") "/project" b = None.
Proof. intros b Hb. apply list_elem_of_singleton in Hb. by subst b. Qed.

Lemma lager_iam_not_empty : "lager-iam" ≠ EmptyString.
Proof. discriminate. Qed.

Lemma init_without_config_throws_witness :
  (LagerPeboInit.config projectFileWithoutConfig = VUndefined
   ∨ LagerPeboInit.config projectFileWithoutConfig = VNull)
  ∧ default [] (LagerPeboInit.plugins projectFileWithoutConfig)
    = ["lager-s3"] ++ "lager-iam" :: []
  ∧ (∀ b, b ∈ ["lager-s3"] → locate onlyIam (String.concat "/") "/project" b = None)
  ∧ locate onlyIam (String.concat "/") "/project" "lager-iam" = Some "lager-iam"
  ∧ "lager-iam" ≠ EmptyString
  ∧ (result (init dropDots _ idleFire onlyIam moduleAt1 (String.concat "/") "/project"
                  projectFileWithoutConfig newProjectEngine) = Throw TypeError
     ∧ plugins (engine (init dropDots _ idleFire onlyIam moduleAt1 (String.concat "/")
                             "/project" projectFileWithoutConfig newProjectEngine))
       = plugins newProjectEngine
     ∧ warnings (init dropDots _ idleFire onlyIam moduleAt1 (String.concat "/")
                      "/project" projectFileWithoutConfig newProjectEngine)
       = not_found <$> ["lager-s3"]).
Proof.
  split; [left; reflexivity |]. split; [reflexivity |]. split; [exact s3_is_not_found |].
  split; [reflexivity |]. split; [exact lager_iam_not_empty |].
  exact (init_without_config_throws dropDots _ idleFire onlyIam moduleAt1
           (String.concat "/") "/project" projectFileWithoutConfig newProjectEngine
           ["lager-s3"] "lager-iam" "lager-iam" []
           (or_introl eq_refl) eq_refl s3_is_not_found eq_refl lager_iam_not_empty).
Defined.

Lemma found_paths_not_empty :
  ∀ id path, id ∈ default [] (LagerPeboInit.plugins projectFile) →
             locate onlyIam (String.concat "/") "/project" id = Some path →
             path ≠ EmptyString.
Proof.
  intros id path Hid.
  apply elem_of_cons in Hid as [-> | Hid];
    [| apply list_elem_of_singleton in Hid as ->]; vm_compute; congruence.
Qed.

Lemma found_modules_register :
  ∀ k p,
    (moduleAt1 <$> omap (locate onlyIam (String.concat "/") "/project")
                        (default [] (LagerPeboInit.plugins projectFile))) !! k = Some p →
    ∃ r, (registerPlugin dropDots p
            (foldl (λ s q, (registerPlugin dropDots q s).2)
                   (set_config (LagerPeboInit.config projectFile) newProjectEngine)
                   (take k (moduleAt1 <$> omap (locate onlyIam (String.concat "/") "/project")
                                               (default [] (LagerPeboInit.plugins projectFile)))))).1
         = Normal r.
Proof.
  intros [| [| k]] p Hk; vm_compute in Hk; [| done..].
  injection Hk as <-. by exists 0.
Qed.

Lemma init_registers_found_witness :
  (∀ id path, id ∈ default [] (LagerPeboInit.plugins projectFile) →
              locate onlyIam (String.concat "/") "/project" id = Some path →
              path ≠ EmptyString)
  ∧ (∀ k p,
       (moduleAt1 <$> omap (locate onlyIam (String.concat "/") "/project")
                           (default [] (LagerPeboInit.plugins projectFile))) !! k = Some p →
       ∃ r, (registerPlugin dropDots p
               (foldl (λ s q, (registerPlugin dropDots q s).2)
                      (set_config (LagerPeboInit.config projectFile) newProjectEngine)
                      (take k (moduleAt1 <$> omap (locate onlyIam (String.concat "/") "/project")
                                                  (default [] (LagerPeboInit.plugins projectFile)))))).1
            = Normal r)
  ∧ init dropDots _ idleFire onlyIam moduleAt1 (String.concat "/") "/project"
         projectFile newProjectEngine
    = (let '(r, st2) :=
         idleFire "afterInit" []
           (foldl (λ s q, (registerPlugin dropDots q s).2)
                  (set_config (LagerPeboInit.config projectFile) newProjectEngine)
                  (moduleAt1 <$> omap (locate onlyIam (String.concat "/") "/project")
                                      (default [] (LagerPeboInit.plugins projectFile)))) in
       mkOutcome r st2
         (not_found <$> filter (λ id, locate onlyIam (String.concat "/") "/project" id
                                      = None)
                               (default [] (LagerPeboInit.plugins projectFile)))
         (mkProject (LagerPeboInit.config projectFile)
                    (Some (default [] (LagerPeboInit.plugins projectFile)))))
  ∧ plugins (foldl (λ s q, (registerPlugin dropDots q s).2)
                   (set_config (LagerPeboInit.config projectFile) newProjectEngine)
                   (moduleAt1 <$> omap (locate onlyIam (String.concat "/") "/project")
                                       (default [] (LagerPeboInit.plugins projectFile))))
    = plugins newProjectEngine
      ++ (moduleAt1 <$> omap (locate onlyIam (String.concat "/") "/project")
                             (default [] (LagerPeboInit.plugins projectFile))).
Proof.
  split; [exact found_paths_not_empty |]. split; [exact found_modules_register |].
  exact (init_registers_found dropDots _ idleFire onlyIam moduleAt1 (String.concat "/")
           "/project" projectFile newProjectEngine
           found_paths_not_empty found_modules_register).
Defined.

(** The project of the last lemma, evaluated: the iam plugin is registered
    with the merged config, the other identifier is reported. *)
Lemma init_project_example :
  let o := init dropDots _ idleFire onlyIam moduleAt1 (String.concat "/") "/project"
                projectFile newProjectEngine in
  result o = Normal (Resolved [])
  ∧ plugins (engine o) = [1]
  ∧ warnings o = [not_found "lager-s3"]
  ∧ getConfig (Some "iam.timeout") (engine o) = Normal (VNum 60).
Proof. by vm_compute. Qed.

End InitInstances.
